(** * Lab1GK / Zad2Lab1: drag-to-stamp drawing on a 2D canvas

    A shallow embedding of [src/Zad2Lab1/index.js].

    - The 2D graphics context is modelled by the sequence of calls issued
      on it (a log), together with its [fillStyle] property.
    - JavaScript numbers are idealised: the integers produced by
      [Math.round] are [Z], the doubles passed to the context are real
      numbers ([R]), and event coordinates are rationals ([Q]).
    - The closure variables of [installMouseHandler], the listener table of
      the DOM and the graphics context form one explicit [world] record that
      every handler transforms.
    - [clear] and [getRGB], which no handler calls, are left out.
    - The rounding of double arithmetic is not modelled: the numbers
      passed to the context are the exact reals that the doubles of the
      program approximate. *)

From Stdlib Require Import ZArith QArith Qround Reals Lra Lia List String Bool Arith.
From Stdlib Require Import DecimalString.
From Stdlib Require Lqa.
Import ListNotations.

Set Implicit Arguments.

(** ** Calls on the graphics context *)

(** One constructor per method (or property assignment) of
    [CanvasRenderingContext2D] that the program uses.  [V] is the type of
    the numeric arguments. *)
Inductive call (V : Type) : Type :=
| BeginPath
| MoveTo (x y : V)
| LineTo (x y : V)
| ClosePath
| Arc (x y r a0 a1 : V) (anticlockwise : bool)
| Fill
| Stroke
| FillRect (x y w h : V)
| StrokeRect (x y w h : V)
| Save
| Restore
| Translate (x y : V)
| Scale (sx sy : V)
| SetFillStyle (s : string).

Arguments BeginPath {V}.
Arguments ClosePath {V}.
Arguments Fill {V}.
Arguments Stroke {V}.
Arguments Save {V}.
Arguments Restore {V}.
Arguments SetFillStyle {V} s.

(** The commands that add a vertex to the current path. *)
Definition is_path_command {V} (c : call V) : bool :=
  match c with
  | MoveTo _ _ | LineTo _ _ => true
  | _ => false
  end.

(** The commands that put ink on the canvas. *)
Definition is_paint {V} (c : call V) : bool :=
  match c with
  | Fill | Stroke | FillRect _ _ _ _ | StrokeRect _ _ _ _ => true
  | _ => false
  end.

(** ** addGraphicsContextExtras *)

Module Extras.

(** *** Polygons: variadic functions reading [arguments] *)

Section Poly.
Variable A : Type.

(** [arguments[i]]: a JavaScript value, [None] standing for
    [undefined] (an index past the end of [arguments]). *)
Definition arg (arguments : list A) (i : nat) : option A :=
  nth_error arguments i.

(** [for (var i = k; i + 1 < arguments.length; i = i + 2)
       this.lineTo(arguments[i], arguments[i + 1]);]
    The loop is unrolled [fuel] times at most. *)
Fixpoint lineTo_loop (fuel : nat) (arguments : list A) (i : nat)
  : list (call (option A)) :=
  match fuel with
  | O => []
  | S fuel' =>
      if (i + 1 <? List.length arguments)%nat
      then LineTo (arg arguments i) (arg arguments (i + 1))
             :: lineTo_loop fuel' arguments (i + 2)
      else []
  end.

Definition fillPoly (arguments : list A) : list (call (option A)) :=
  if (List.length arguments <? 6)%nat then []
  else
    [BeginPath; MoveTo (arg arguments 0) (arg arguments 1)]
      ++ lineTo_loop (List.length arguments) arguments 2
      ++ [ClosePath; Fill].

Definition strokePoly (arguments : list A) : list (call (option A)) :=
  if (List.length arguments <? 4)%nat then []
  else
    [BeginPath; MoveTo (arg arguments 0) (arg arguments 1)]
      ++ lineTo_loop (List.length arguments) arguments 2
      ++ [ClosePath; Stroke].
End Poly.

(** *** Lines, circles and ovals *)

Open Scope R_scope.

Definition strokeLine (x1 y1 x2 y2 : R) : list (call R) :=
  [BeginPath; MoveTo x1 y1; LineTo x2 y2; Stroke].

Definition fillCircle (x y r : R) : list (call R) :=
  [BeginPath; Arc x y r 0 (2 * PI) false; Fill].

Definition strokeCircle (x y radius : R) : list (call R) :=
  [BeginPath; Arc x y radius 0 (2 * PI) false; Stroke].

Definition fillOval (x y horizontalRadius verticalRadius : R) : list (call R) :=
  [Save; Translate x y; Scale horizontalRadius verticalRadius;
   BeginPath; Arc 0 0 1 0 (2 * PI) false; Restore; Fill].

Definition strokeOval (x y horizontalRadius verticalRadius : R) : list (call R) :=
  [Save; Translate x y; Scale horizontalRadius verticalRadius;
   BeginPath; Arc 0 0 1 0 (2 * PI) false; Restore; Stroke].

End Extras.

(** ** The page: DOM listeners, UI controls and the graphics context *)

(** The two event targets the program registers listeners on. *)
Inductive target : Type := Canvas | Document.

Inductive evtype : Type := mousedown | mousemove | mouseup.

(** The identities of the three nested functions of [installMouseHandler],
    as [addEventListener] and [removeEventListener] compare them. *)
Inductive callback : Type := fn_doMouseDown | fn_doMouseMove | fn_doMouseUp.

(** An entry of an event target's listener list: the DOM identifies a
    listener by its type, its callback and its capture flag. *)
Record listener : Type := Listener {
  l_target : target;
  l_type : evtype;
  l_callback : callback;
  l_capture : bool
}.

Definition target_eqb (a b : target) : bool :=
  match a, b with
  | Canvas, Canvas | Document, Document => true
  | _, _ => false
  end.

Definition evtype_eqb (a b : evtype) : bool :=
  match a, b with
  | mousedown, mousedown | mousemove, mousemove | mouseup, mouseup => true
  | _, _ => false
  end.

Definition callback_eqb (a b : callback) : bool :=
  match a, b with
  | fn_doMouseDown, fn_doMouseDown
  | fn_doMouseMove, fn_doMouseMove
  | fn_doMouseUp, fn_doMouseUp => true
  | _, _ => false
  end.

Definition listener_eqb (a b : listener) : bool :=
  target_eqb (l_target a) (l_target b)
  && evtype_eqb (l_type a) (l_type b)
  && callback_eqb (l_callback a) (l_callback b)
  && Bool.eqb (l_capture a) (l_capture b).

Definition registered (l : listener) (ls : list listener) : bool :=
  existsb (listener_eqb l) ls.

(** [t.addEventListener(type, callback, capture)]: appended to the list
    unless an identical listener is already there. *)
Definition addEventListener (t : target) (ty : evtype) (f : callback)
    (capture : bool) (ls : list listener) : list listener :=
  let l := Listener t ty f capture in
  if registered l ls then ls else ls ++ [l].

(** [t.removeEventListener(type, callback, capture)]: removes the
    identical listener, and does nothing when there is none. *)
Definition removeEventListener (t : target) (ty : evtype) (f : callback)
    (capture : bool) (ls : list listener) : list listener :=
  filter (fun l' => negb (listener_eqb (Listener t ty f capture) l')) ls.

(** A mouse event as the handlers read it.  [e_target] is where the pointer
    is: over the canvas, or elsewhere in the document. *)
Record MouseEvent : Type := {
  button : Z;
  clientX : Q;
  clientY : Q;
  e_target : target
}.

(** What a handler reads from the page while it runs:
    [canvas.getBoundingClientRect()], the numeric values of the two
    selection controls, and the successive results of [Math.random()]. *)
Record page : Type := {
  rect_left : Q;
  rect_top : Q;
  colorChoice_value : Z;
  shapeType_value : Z;
  Math_random : nat -> Q
}.

(** The graphics context: its [fillStyle] and the calls issued so far,
    oldest first. *)
Record context2d : Type := {
  fillStyle : string;
  calls : list (call R)
}.

(** The variables of [installMouseHandler] that its nested functions
    close over; [None] is [undefined]. *)
Record closure : Type := {
  dragging : bool;
  startX : option Z;
  startY : option Z;
  prevX : option Z;
  prevY : option Z;
  colorChoice : option Z;
  shapeType : option Z
}.

Record world : Type := {
  vars : closure;
  listeners : list listener;
  graphics : context2d
}.

(** [Math.round]: the nearest integer, halves rounded up. *)
Definition Math_round (q : Q) : Z := Qfloor (q + (1 # 2)).

(** [Math.floor]. *)
Definition Math_floor (q : Q) : Z := Qfloor q.

(** The decimal text of an integer, as [+] of a string and a number
    produces it. *)
Definition toString (z : Z) : string :=
  NilZero.string_of_int (Z.to_int z).

(** [randomColorString()], drawing three times from [Math.random]. *)
Definition randomColorString (random : nat -> Q) : string :=
  let r := Math_floor (256 * random 0%nat) in
  let g := Math_floor (256 * random 1%nat) in
  let b := Math_floor (256 * random 2%nat) in
  ("rgb(" ++ toString r ++ "," ++ toString g ++ "," ++ toString b ++ ")")%string.

(** ** installMouseHandler *)

Module Handler.

(** *** Updating the graphics context *)

Definition issue (cs : list (call R)) (g : context2d) : context2d :=
  {| fillStyle := fillStyle g; calls := calls g ++ cs |}.

(** [graphics.fillStyle = s]. *)
Definition set_fillStyle (s : string) (g : context2d) : context2d :=
  {| fillStyle := s; calls := calls g ++ [SetFillStyle s] |}.

Definition on_graphics (f : context2d -> context2d) (w : world) : world :=
  {| vars := vars w; listeners := listeners w; graphics := f (graphics w) |}.

Definition on_listeners (f : list listener -> list listener) (w : world) : world :=
  {| vars := vars w; listeners := f (listeners w); graphics := graphics w |}.

Definition on_vars (f : closure -> closure) (w : world) : world :=
  {| vars := f (vars w); listeners := listeners w; graphics := graphics w |}.

Definition set_dragging (b : bool) (v : closure) : closure :=
  {| dragging := b; startX := startX v; startY := startY v;
     prevX := prevX v; prevY := prevY v;
     colorChoice := colorChoice v; shapeType := shapeType v |}.

Definition set_start_prev (x y : Z) (v : closure) : closure :=
  {| dragging := dragging v; startX := Some x; startY := Some y;
     prevX := Some x; prevY := Some y;
     colorChoice := colorChoice v; shapeType := shapeType v |}.

Definition set_prev (x y : Z) (v : closure) : closure :=
  {| dragging := dragging v; startX := startX v; startY := startY v;
     prevX := Some x; prevY := Some y;
     colorChoice := colorChoice v; shapeType := shapeType v |}.

Definition set_choices (c s : Z) (v : closure) : closure :=
  {| dragging := dragging v; startX := startX v; startY := startY v;
     prevX := prevX v; prevY := prevY v;
     colorChoice := Some c; shapeType := Some s |}.

(** *** doMouseDown *)

Definition doMouseDown (evt : MouseEvent) (p : page) (w : world) : world :=
  if dragging (vars w) then w
  else if negb (button evt =? 0)%Z then w
  else
    let x := Math_round (clientX evt - rect_left p) in
    let y := Math_round (clientY evt - rect_top p) in
    let w := on_vars (set_dragging true) w in
    let w :=
      if dragging (vars w) then
        let w := on_vars (set_start_prev x y) w in
        let w := on_listeners
                   (addEventListener Document mousemove fn_doMouseMove false) w in
        on_listeners (addEventListener Document mouseup fn_doMouseUp false) w
      else w in
    on_vars (set_choices (colorChoice_value p) (shapeType_value p)) w.

(** *** doMouseMove *)

(** [Math.abs(x - prevX) + Math.abs(y - prevY) < 3]; with an [undefined]
    operand the sum is [NaN] and the comparison is false. *)
Definition too_close (x y : Z) (v : closure) : bool :=
  match prevX v, prevY v with
  | Some px, Some py => (Z.abs (x - px) + Z.abs (y - py) <? 3)%Z
  | _, _ => false
  end.

(** [switch (colorChoice)]: five cases, no default. *)
Definition select_color (p : page) (c : option Z) (g : context2d) : context2d :=
  match c with
  | Some 0%Z => set_fillStyle (randomColorString (Math_random p)) g
  | Some 1%Z => set_fillStyle "red" g
  | Some 2%Z => set_fillStyle "green" g
  | Some 3%Z => set_fillStyle "blue" g
  | Some 4%Z => set_fillStyle "yellow" g
  | _ => g
  end.

Definition numOfVertices : nat := 13.
Definition size : R := 50.

(** The vertex computed in the body of the [for] loop of [case 1]. *)
Definition star_vertex (x y : Z) (i : nat) : R * R :=
  ((IZR x + size * cos (INR i * 2 * PI / INR numOfVertices))%R,
   (IZR y + size * sin (INR i * 2 * PI / INR numOfVertices))%R).

(** [case 1] of [switch (shapeType)]; the loop
    [for (var i = 0; i <= numOfVertices; i++)] runs over
    [0, 1, ..., numOfVertices]. *)
Definition star (x y : Z) : list (call R) :=
  [BeginPath; MoveTo (IZR x + size * cos 0)%R (IZR y + size * sin 0)%R]
    ++ map (fun i => LineTo (fst (star_vertex x y i)) (snd (star_vertex x y i)))
         (seq 0 (numOfVertices + 1))
    ++ [Fill; Stroke].

(** [case 0] of [switch (shapeType)]. *)
Definition square (x y : Z) : list (call R) :=
  [FillRect (IZR (x - 20)) (IZR (y - 20)) 40%R 40%R;
   StrokeRect (IZR (x - 20)) (IZR (y - 20)) 40%R 40%R].

(** [switch (shapeType)]: two cases, no default. *)
Definition draw_shape (x y : Z) (s : option Z) : list (call R) :=
  match s with
  | Some 0%Z => square x y
  | Some 1%Z => star x y
  | _ => []
  end.

Definition doMouseMove (evt : MouseEvent) (p : page) (w : world) : world :=
  if negb (dragging (vars w)) then w
  else
    let x := Math_round (clientX evt - rect_left p) in
    let y := Math_round (clientY evt - rect_top p) in
    if too_close x y (vars w) then w
    else
      let w := on_graphics (select_color p (colorChoice (vars w))) w in
      let w := on_graphics (issue (draw_shape x y (shapeType (vars w)))) w in
      on_vars (set_prev x y) w.

(** *** doMouseUp *)

Definition doMouseUp (evt : MouseEvent) (p : page) (w : world) : world :=
  if negb (dragging (vars w)) then w
  else
    let w := on_vars (set_dragging false) w in
    let w := on_listeners
               (removeEventListener Document mousemove fn_doMouseMove false) w in
    on_listeners (removeEventListener Document mouseup fn_doMouseMove false) w.

(** *** Event delivery *)

Definition invoke (f : callback) : MouseEvent -> page -> world -> world :=
  match f with
  | fn_doMouseDown => doMouseDown
  | fn_doMouseMove => doMouseMove
  | fn_doMouseUp => doMouseUp
  end.

(** The targets an event visits: its own, then (bubbling) the document. *)
Definition propagation (t : target) : list target :=
  match t with
  | Canvas => [Canvas; Document]
  | Document => [Document]
  end.

(** At one target: the listeners of the event's type registered there are
    copied, and each is invoked in turn unless it was removed meanwhile. *)
Definition deliver_at (ty : evtype) (evt : MouseEvent) (p : page)
    (w : world) (t : target) : world :=
  fold_left
    (fun w l => if registered l (listeners w)
                then invoke (l_callback l) evt p w else w)
    (filter (fun l => target_eqb (l_target l) t && evtype_eqb (l_type l) ty)
       (listeners w))
    w.

Definition dispatch (ty : evtype) (evt : MouseEvent) (p : page) (w : world) : world :=
  fold_left (deliver_at ty evt p) (propagation (e_target evt)) w.

(** One event of a session, with the page as it is when the event fires. *)
Record occurrence : Type := {
  o_type : evtype;
  o_event : MouseEvent;
  o_page : page
}.

Definition run (os : list occurrence) (w : world) : world :=
  fold_left (fun w o => dispatch (o_type o) (o_event o) (o_page o) w) os w.

(** *** init, for a canvas of the given size *)

(** The world when [init()] returns: [installMouseHandler] has declared
    its variables and registered [doMouseDown] on the canvas, and the
    canvas has been filled with white. *)
Definition init (width height : Z) : world :=
  {| vars := {| dragging := false; startX := None; startY := None;
                prevX := None; prevY := None;
                colorChoice := None; shapeType := None |};
     listeners := addEventListener Canvas mousedown fn_doMouseDown false [];
     graphics :=
       issue [FillRect 0%R 0%R (IZR width) (IZR height)]
         (set_fillStyle "white" {| fillStyle := "#000000"; calls := [] |}) |}.

End Handler.

(** ** What the canvas does with the calls: transforms and the current path

    The geometry of the host's 2D context, as far as the ovals need it:
    the current transformation matrix, the stack of [save]/[restore], and
    the current path, whose points are transformed when they are added to
    the path and not when the path is painted. *)

Module Canvas2D.

Local Open Scope R_scope.

(** The matrix [[a c e] [b d f] [0 0 1]]. *)
Record matrix : Type := {
  m_a : R; m_b : R; m_c : R; m_d : R; m_e : R; m_f : R
}.

Definition identity : matrix :=
  {| m_a := 1; m_b := 0; m_c := 0; m_d := 1; m_e := 0; m_f := 0 |}.

Definition apply (m : matrix) (p : R * R) : R * R :=
  (m_a m * fst p + m_c m * snd p + m_e m,
   m_b m * fst p + m_d m * snd p + m_f m).

Definition translate (m : matrix) (x y : R) : matrix :=
  {| m_a := m_a m; m_b := m_b m; m_c := m_c m; m_d := m_d m;
     m_e := m_a m * x + m_c m * y + m_e m;
     m_f := m_b m * x + m_d m * y + m_f m |}.

Definition scale (m : matrix) (sx sy : R) : matrix :=
  {| m_a := m_a m * sx; m_b := m_b m * sx;
     m_c := m_c m * sy; m_d := m_d m * sy;
     m_e := m_e m; m_f := m_f m |}.

(** A piece of a path.  Vertices are stored in canvas pixels; an arc keeps
    the transform that was current when it was added. *)
Inductive piece : Type :=
| P_move (p : R * R)
| P_line (p : R * R)
| P_close
| P_arc (m : matrix) (x y r a0 a1 : R) (anticlockwise : bool).

Inductive paint : Type := Filled | Stroked.

(** A painted mark: what was painted, its outline, and the transform in
    force when it was painted (the one that scales the pen of a stroke). *)
Record mark : Type := {
  mk_paint : paint;
  mk_outline : list piece;
  mk_pen : matrix
}.

Record state : Type := {
  ctm : matrix;
  saved : list matrix;
  path : list piece;
  painted : list mark
}.

Definition rect_outline (m : matrix) (x y w h : R) : list piece :=
  [P_move (apply m (x, y)); P_line (apply m (x + w, y));
   P_line (apply m (x + w, y + h)); P_line (apply m (x, y + h)); P_close].

Definition exec (s : state) (c : call R) : state :=
  match c with
  | BeginPath =>
      {| ctm := ctm s; saved := saved s; path := []; painted := painted s |}
  | MoveTo x y =>
      {| ctm := ctm s; saved := saved s;
         path := path s ++ [P_move (apply (ctm s) (x, y))];
         painted := painted s |}
  | LineTo x y =>
      {| ctm := ctm s; saved := saved s;
         path := path s ++ [P_line (apply (ctm s) (x, y))];
         painted := painted s |}
  | ClosePath =>
      {| ctm := ctm s; saved := saved s; path := path s ++ [P_close];
         painted := painted s |}
  | Arc x y r a0 a1 acw =>
      {| ctm := ctm s; saved := saved s;
         path := path s ++ [P_arc (ctm s) x y r a0 a1 acw];
         painted := painted s |}
  | Fill =>
      {| ctm := ctm s; saved := saved s; path := path s;
         painted := painted s ++
           [{| mk_paint := Filled; mk_outline := path s; mk_pen := ctm s |}] |}
  | Stroke =>
      {| ctm := ctm s; saved := saved s; path := path s;
         painted := painted s ++
           [{| mk_paint := Stroked; mk_outline := path s; mk_pen := ctm s |}] |}
  | FillRect x y w h =>
      {| ctm := ctm s; saved := saved s; path := path s;
         painted := painted s ++
           [{| mk_paint := Filled; mk_outline := rect_outline (ctm s) x y w h;
               mk_pen := ctm s |}] |}
  | StrokeRect x y w h =>
      {| ctm := ctm s; saved := saved s; path := path s;
         painted := painted s ++
           [{| mk_paint := Stroked; mk_outline := rect_outline (ctm s) x y w h;
               mk_pen := ctm s |}] |}
  | Save =>
      {| ctm := ctm s; saved := ctm s :: saved s; path := path s;
         painted := painted s |}
  | Restore =>
      match saved s with
      | m :: rest =>
          {| ctm := m; saved := rest; path := path s; painted := painted s |}
      | [] => s
      end
  | Translate x y =>
      {| ctm := translate (ctm s) x y; saved := saved s; path := path s;
         painted := painted s |}
  | Scale sx sy =>
      {| ctm := scale (ctm s) sx sy; saved := saved s; path := path s;
         painted := painted s |}
  | SetFillStyle _ => s
  end.

Definition exec_all (cs : list (call R)) (s : state) : state :=
  fold_left exec cs s.

(** The points of the curve an arc piece stands for, for a clockwise arc
    from angle [a0] to angle [a1]. *)
Definition on_arc (m : matrix) (x y r a0 a1 : R) (q : R * R) : Prop :=
  exists t, a0 <= t <= a1 /\ q = apply m (x + r * cos t, y + r * sin t).

(** [lo] and [hi] are the least and the greatest value that the
    coordinate [coord] takes on the point set [S]. *)
Definition extent (S : R * R -> Prop) (coord : R * R -> R) (lo hi : R) : Prop :=
  (forall q, S q -> lo <= coord q <= hi)
  /\ (exists q, S q /\ coord q = lo)
  /\ (exists q, S q /\ coord q = hi).

(** [S] is symmetric about the point [c]. *)
Definition centered_at (S : R * R -> Prop) (c : R * R) : Prop :=
  forall q, S q -> S (2 * fst c - fst q, 2 * snd c - snd q).

End Canvas2D.

(** ** Vocabulary of the statements about polygons *)

Module Vertices.
Section Vertices.
Variable A : Type.

(** The argument list [x1, y1, x2, y2, ...] of a sequence of vertices. *)
Definition coords (vs : list (A * A)) : list A :=
  flat_map (fun v => [fst v; snd v]) vs.

(** The [lineTo] that reaches the vertex [v]. *)
Definition lineTo_vertex (v : A * A) : call (option A) :=
  LineTo (Some (fst v)) (Some (snd v)).
End Vertices.
Arguments coords {A} vs.
Arguments lineTo_vertex {A} v.
End Vertices.

(** ** Vocabulary of the statements about the handlers *)

Module Session.
Import Handler.

(** The canvas coordinates that [doMouseDown] and [doMouseMove] compute
    from an event. *)
Definition position (evt : MouseEvent) (p : page) : Z * Z :=
  (Math_round (clientX evt - rect_left p),
   Math_round (clientY evt - rect_top p)).

(** A move that [doMouseMove] does not discard: a drag is in progress and
    the pointer is not too close to the previous position. *)
Definition qualifying (evt : MouseEvent) (p : page) (w : world) : Prop :=
  dragging (vars w) = true
  /\ too_close (fst (position evt p)) (snd (position evt p)) (vars w) = false.

(** [cs] are the calls issued on the graphics context between [w] and [w']. *)
Definition issued (w w' : world) (cs : list (call R)) : Prop :=
  calls (graphics w') = calls (graphics w) ++ cs.

(** The three listeners the program ever registers. *)
Definition L_down : listener := Listener Canvas mousedown fn_doMouseDown false.
Definition L_move : listener := Listener Document mousemove fn_doMouseMove false.
Definition L_up : listener := Listener Document mouseup fn_doMouseUp false.

(** The page with other values in its two selection controls. *)
Definition with_choices (c s : Z) (p : page) : page :=
  {| rect_left := rect_left p; rect_top := rect_top p;
     colorChoice_value := c; shapeType_value := s;
     Math_random := Math_random p |}.

(** The handler that an event of a given type reaches once the program is
    installed. *)
Definition step (ty : evtype) (evt : MouseEvent) (p : page) (w : world) : world :=
  match ty with
  | mousedown =>
      match e_target evt with
      | Canvas => doMouseDown evt p w
      | Document => w
      end
  | mousemove => doMouseMove evt p w
  | mouseup => doMouseUp evt p w
  end.

(** The worlds in which the program can be: the variables of the closure
    go with one of the four listener tables that occur. *)
Definition installed (w : world) : Prop :=
  (dragging (vars w) = false
   /\ (listeners w = [L_down] \/ listeners w = [L_down; L_up]))
  \/ (dragging (vars w) = true
      /\ (listeners w = [L_down; L_move; L_up]
          \/ listeners w = [L_down; L_up; L_move])).

(** A primary-button event with the pointer over the canvas, at canvas
    coordinates [(x, y)] of a canvas placed at the origin of the window. *)
Definition pointer (x y : Z) : MouseEvent :=
  {| button := 0; clientX := inject_Z x; clientY := inject_Z y;
     e_target := Canvas |}.

(** A page whose controls show color [c] and shape [s]. *)
Definition controls (c s : Z) : page :=
  {| rect_left := 0; rect_top := 0;
     colorChoice_value := c; shapeType_value := s;
     Math_random := fun _ => 0%Q |}.

Definition occ (ty : evtype) (x y c s : Z) : occurrence :=
  {| o_type := ty; o_event := pointer x y; o_page := controls c s |}.

(** [o'] is the occurrence [o] on a page whose two selection controls may
    show other values. *)
Definition recontrolled (o o' : occurrence) : Prop :=
  exists c s : Z,
    o' = {| o_type := o_type o; o_event := o_event o;
            o_page := with_choices c s (o_page o) |}.

(** A press of the main button over the canvas. *)
Definition arming (o : occurrence) : Prop :=
  o_type o = mousedown
  /\ e_target (o_event o) = Canvas
  /\ button (o_event o) = 0%Z.

(** Events among which no button is released. *)
Definition no_release (os : list occurrence) : Prop :=
  Forall (fun o => o_type o <> mouseup) os.

(** [prevX] and [prevY] both hold a number. *)
Definition prev_defined (w : world) : Prop :=
  exists x y : Z, prevX (vars w) = Some x /\ prevY (vars w) = Some y.

(** The point at distance [r] from [(x, y)] in direction [theta]. *)
Definition polar (x y : Z) (r theta : R) : R * R :=
  ((IZR x + r * cos theta)%R, (IZR y + r * sin theta)%R).

Definition moveTo_point (v : R * R) : call R := MoveTo (fst v) (snd v).
Definition lineTo_point (v : R * R) : call R := LineTo (fst v) (snd v).

End Session.

(** ** Vocabulary of the statements about whole sessions *)

Module Terms.
Import Handler Session.

(** The calls that change the transform or its stack. *)
Definition is_transform (c : call R) : bool :=
  match c with
  | Save | Restore | Translate _ _ | Scale _ _ => true
  | _ => false
  end.

(** No [undefined] among the coordinates a call passes. *)
Definition defined_args {A : Type} (c : call (option A)) : bool :=
  match c with
  | MoveTo (Some _) (Some _) | LineTo (Some _) (Some _) => true
  | MoveTo _ _ | LineTo _ _ => false
  | _ => true
  end.

(** A list of calls none of which touches the transform. *)
Definition plain (cs : list (call R)) : Prop :=
  Forall (fun c => is_transform c = false) cs.

Definition is_lineTo {V : Type} (c : call V) : bool :=
  match c with
  | LineTo _ _ => true
  | _ => false
  end.

(** A color channel. *)
Definition channel (z : Z) : Prop := (0 <= z <= 255)%Z.

(** The text [randomColorString] builds from three channels. *)
Definition rgb (r g b : Z) : string :=
  ("rgb(" ++ toString r ++ "," ++ toString g ++ "," ++ toString b ++ ")")%string.

(** [Math.random] as documented: every result is in [0, 1). *)
Definition unit_interval (random : nat -> Q) : Prop :=
  forall k : nat, (0 <= random k /\ random k < 1)%Q.

(** The fill styles the program assigns. *)
Definition program_style (s : string) : Prop :=
  In s ["white"; "red"; "green"; "blue"; "yellow"]%string
  \/ exists r g b : Z, channel r /\ channel g /\ channel b /\ s = rgb r g b.

(** Sessions in which [Math.random] behaves as documented. *)
Definition fair (os : list occurrence) : Prop :=
  Forall (fun o => unit_interval (Math_random (o_page o))) os.

(** Events other than presses. *)
Definition no_press (os : list occurrence) : Prop :=
  Forall (fun o => o_type o <> mousedown) os.

(** The untouched canvas. *)
Definition blank : Canvas2D.state :=
  {| Canvas2D.ctm := Canvas2D.identity; Canvas2D.saved := [];
     Canvas2D.path := []; Canvas2D.painted := [] |}.

(** The outline of the star around [(x, y)] under the transform [m]. *)
Definition star_outline (m : Canvas2D.matrix) (x y : Z) : list Canvas2D.piece :=
  Canvas2D.P_move (Canvas2D.apply m (polar x y 50 0))
    :: map (fun k => Canvas2D.P_line
                       (Canvas2D.apply m (polar x y 50 (INR k * 2 * PI / 13))))
         (seq 0 14).

End Terms.

(** * Properties *)

Unset Implicit Arguments.

(** ** Polygons *)

Module PolyFacts.
Import Extras Vertices.

Section Poly.
Variable A : Type.

Lemma coords_length (vs : list (A * A)) :
  List.length (coords vs) = (2 * List.length vs)%nat.
Proof.
  induction vs as [|v vs IH]; simpl; [reflexivity | rewrite IH; lia].
Qed.

Lemma arg_app_r (pre rest : list A) (i : nat) :
  arg (pre ++ rest) (List.length pre + i) = arg rest i.
Proof.
  unfold arg. rewrite nth_error_app2 by lia.
  f_equal. lia.
Qed.

(** The loop, started at the index where the pairs of [vs] begin, adds
    one [lineTo] per complete pair and leaves out a dangling last
    argument; as many rounds as there are pairs are enough. *)
Lemma lineTo_loop_pairs (vs : list (A * A)) :
  forall (fuel : nat) (pre tail : list A),
    (List.length vs <= fuel)%nat ->
    (List.length tail <= 1)%nat ->
    lineTo_loop fuel (pre ++ coords vs ++ tail) (List.length pre)
    = map lineTo_vertex vs.
Proof.
  induction vs as [|[x y] vs IH]; intros fuel pre tail Hfuel Htail.
  - destruct fuel as [|fuel]; [reflexivity|].
    simpl. rewrite length_app.
    destruct (Nat.ltb_spec (List.length pre + 1)
                (List.length pre + List.length tail)); [lia | reflexivity].
  - destruct fuel as [|fuel]; [simpl in Hfuel; lia|].
    cbn [lineTo_loop].
    assert (Hlen : (List.length pre + 1
                    < List.length (pre ++ coords ((x, y) :: vs) ++ tail))%nat).
    { rewrite !length_app, coords_length. simpl. lia. }
    apply Nat.ltb_lt in Hlen. rewrite Hlen.
    cbn [map]. f_equal.
    + unfold lineTo_vertex. cbn [fst snd]. f_equal.
      * rewrite <- (Nat.add_0_r (List.length pre)) at 1.
        rewrite arg_app_r. reflexivity.
      * rewrite arg_app_r. reflexivity.
    + replace (pre ++ coords ((x, y) :: vs) ++ tail)
        with ((pre ++ [x; y]) ++ coords vs ++ tail)
        by (rewrite <- app_assoc; reflexivity).
      replace (List.length pre + 2)%nat with (List.length (pre ++ [x; y]))
        by (rewrite length_app; reflexivity).
      apply IH; [simpl in Hfuel; lia | exact Htail].
Qed.

(** The shape of a [fillPoly] call that gets its three vertices. *)
Lemma fillPoly_pairs (x0 y0 : A) (vs : list (A * A)) (tail : list A) :
  (2 <= List.length vs)%nat ->
  (List.length tail <= 1)%nat ->
  fillPoly (x0 :: y0 :: coords vs ++ tail)
  = [BeginPath; MoveTo (Some x0) (Some y0)]
      ++ map lineTo_vertex vs ++ [ClosePath; Fill].
Proof.
  intros Hvs Htail. unfold fillPoly.
  assert (Hlen : (List.length (x0 :: y0 :: coords vs ++ tail) <? 6)%nat = false).
  { apply Nat.ltb_ge. simpl. rewrite length_app, coords_length. lia. }
  rewrite Hlen. cbn [arg nth_error]. do 3 f_equal.
  apply (lineTo_loop_pairs vs _ [x0; y0] tail); [|exact Htail].
  simpl. rewrite length_app, coords_length. lia.
Qed.

Lemma strokePoly_pairs (x0 y0 : A) (vs : list (A * A)) (tail : list A) :
  (1 <= List.length vs)%nat ->
  (List.length tail <= 1)%nat ->
  strokePoly (x0 :: y0 :: coords vs ++ tail)
  = [BeginPath; MoveTo (Some x0) (Some y0)]
      ++ map lineTo_vertex vs ++ [ClosePath; Stroke].
Proof.
  intros Hvs Htail. unfold strokePoly.
  assert (Hlen : (List.length (x0 :: y0 :: coords vs ++ tail) <? 4)%nat = false).
  { apply Nat.ltb_ge. simpl. rewrite length_app, coords_length. lia. }
  rewrite Hlen. cbn [arg nth_error]. do 3 f_equal.
  apply (lineTo_loop_pairs vs _ [x0; y0] tail); [|exact Htail].
  simpl. rewrite length_app, coords_length. lia.
Qed.
End Poly.

End PolyFacts.

Import Extras Vertices.

(** C6.  [fillPoly] issues no call at all when it gets fewer than 6
    arguments, and [strokePoly] none when it gets fewer than 4.  With at
    least three vertices (two for [strokePoly]) the calls are: begin a path,
    move to the first vertex, one line to each further vertex in order,
    close the path, and only then fill (stroke).  In particular
    [fillPoly(0,0,10,0,5,10)] paints the closed triangle and
    [fillPoly(0,0,10,0)] does nothing. *)
Theorem C6_poly_minimum_and_closing :
  (forall (A : Type) (args : list A),
      (List.length args < 6)%nat -> fillPoly args = [])
  /\ (forall (A : Type) (args : list A),
      (List.length args < 4)%nat -> strokePoly args = [])
  /\ (forall (A : Type) (x0 y0 : A) (vs : list (A * A)),
      (2 <= List.length vs)%nat ->
      fillPoly (x0 :: y0 :: coords vs)
      = [BeginPath; MoveTo (Some x0) (Some y0)]
          ++ map lineTo_vertex vs ++ [ClosePath; Fill])
  /\ (forall (A : Type) (x0 y0 : A) (vs : list (A * A)),
      (1 <= List.length vs)%nat ->
      strokePoly (x0 :: y0 :: coords vs)
      = [BeginPath; MoveTo (Some x0) (Some y0)]
          ++ map lineTo_vertex vs ++ [ClosePath; Stroke])
  /\ fillPoly [0; 0; 10; 0; 5; 10]%Z
     = [BeginPath; MoveTo (Some 0%Z) (Some 0%Z);
        LineTo (Some 10%Z) (Some 0%Z); LineTo (Some 5%Z) (Some 10%Z);
        ClosePath; Fill]
  /\ fillPoly [0; 0; 10; 0]%Z = [].
Proof.
  repeat split.
  - intros A args H. unfold fillPoly.
    apply Nat.ltb_lt in H. rewrite H. reflexivity.
  - intros A args H. unfold strokePoly.
    apply Nat.ltb_lt in H. rewrite H. reflexivity.
  - intros A x0 y0 vs H.
    rewrite <- (app_nil_r (coords vs)).
    apply PolyFacts.fillPoly_pairs; simpl; lia.
  - intros A x0 y0 vs H.
    rewrite <- (app_nil_r (coords vs)).
    apply PolyFacts.strokePoly_pairs; simpl; lia.
Qed.

Lemma C6_poly_minimum_and_closing_witness :
  fillPoly [1; 2; 3; 4; 5]%Z = []
  /\ strokePoly [1; 2; 3]%Z = []
  /\ fillPoly (0 :: 0 :: coords [(10, 0); (10, 10); (0, 10)])%Z
     = [BeginPath; MoveTo (Some 0%Z) (Some 0%Z);
        LineTo (Some 10%Z) (Some 0%Z); LineTo (Some 10%Z) (Some 10%Z);
        LineTo (Some 0%Z) (Some 10%Z); ClosePath; Fill]
  /\ strokePoly (0 :: 0 :: coords [(10, 0)])%Z
     = [BeginPath; MoveTo (Some 0%Z) (Some 0%Z);
        LineTo (Some 10%Z) (Some 0%Z); ClosePath; Stroke].
Proof.
  destruct C6_poly_minimum_and_closing as (Hf & Hs & Hfill & Hstroke & _).
  split; [apply Hf; simpl; lia|].
  split; [apply Hs; simpl; lia|].
  split; [apply (Hfill Z); simpl; lia|].
  apply (Hstroke Z); simpl; lia.
Defined.

(** C10.  An odd number of arguments is not rejected: when [fillPoly]
    gets three or more complete pairs followed by one more argument [z]
    (an odd count of at least 7), or [strokePoly] two or more complete
    pairs followed by [z] (an odd count of at least 5), the polygon is
    built from the complete pairs alone, closed and painted, exactly as if
    [z] had not been passed. *)
Theorem C10_dangling_argument_ignored :
  forall (A : Type) (x0 y0 : A) (vs : list (A * A)) (z : A),
    ((2 <= List.length vs)%nat ->
       fillPoly (x0 :: y0 :: coords vs ++ [z])
       = [BeginPath; MoveTo (Some x0) (Some y0)]
           ++ map lineTo_vertex vs ++ [ClosePath; Fill]
       /\ fillPoly (x0 :: y0 :: coords vs ++ [z])
          = fillPoly (x0 :: y0 :: coords vs))
    /\ ((1 <= List.length vs)%nat ->
       strokePoly (x0 :: y0 :: coords vs ++ [z])
       = [BeginPath; MoveTo (Some x0) (Some y0)]
           ++ map lineTo_vertex vs ++ [ClosePath; Stroke]
       /\ strokePoly (x0 :: y0 :: coords vs ++ [z])
          = strokePoly (x0 :: y0 :: coords vs)).
Proof.
  intros A x0 y0 vs z. split; intros H.
  - assert (E : fillPoly (x0 :: y0 :: coords vs ++ [z])
                = [BeginPath; MoveTo (Some x0) (Some y0)]
                    ++ map lineTo_vertex vs ++ [ClosePath; Fill])
      by (apply PolyFacts.fillPoly_pairs; simpl; lia).
    split; [exact E|]. rewrite E.
    rewrite <- (app_nil_r (coords vs)).
    symmetry. apply PolyFacts.fillPoly_pairs; simpl; lia.
  - assert (E : strokePoly (x0 :: y0 :: coords vs ++ [z])
                = [BeginPath; MoveTo (Some x0) (Some y0)]
                    ++ map lineTo_vertex vs ++ [ClosePath; Stroke])
      by (apply PolyFacts.strokePoly_pairs; simpl; lia).
    split; [exact E|]. rewrite E.
    rewrite <- (app_nil_r (coords vs)).
    symmetry. apply PolyFacts.strokePoly_pairs; simpl; lia.
Qed.

Lemma C10_dangling_argument_ignored_witness :
  fillPoly [0; 0; 10; 0; 5; 10; 99]%Z
  = [BeginPath; MoveTo (Some 0%Z) (Some 0%Z);
     LineTo (Some 10%Z) (Some 0%Z); LineTo (Some 5%Z) (Some 10%Z);
     ClosePath; Fill]
  /\ strokePoly [0; 0; 10; 0; 99]%Z
     = [BeginPath; MoveTo (Some 0%Z) (Some 0%Z);
        LineTo (Some 10%Z) (Some 0%Z); ClosePath; Stroke].
Proof.
  split.
  - apply (C10_dangling_argument_ignored Z 0%Z 0%Z [(10, 0); (5, 10)]%Z 99%Z).
    simpl; lia.
  - apply (C10_dangling_argument_ignored Z 0%Z 0%Z [(10, 0)]%Z 99%Z).
    simpl; lia.
Defined.

(** ** The handlers *)

Module HandlerFacts.
Import Handler Session.

(** What [doMouseMove] does to a move it does not discard. *)
Lemma doMouseMove_qualifying (evt : MouseEvent) (p : page) (w : world) :
  qualifying evt p w ->
  doMouseMove evt p w
  = on_vars (set_prev (fst (position evt p)) (snd (position evt p)))
      (on_graphics
         (issue (draw_shape (fst (position evt p)) (snd (position evt p))
                   (shapeType (vars w))))
         (on_graphics (select_color p (colorChoice (vars w))) w)).
Proof.
  intros [Hdrag Hfar]. unfold doMouseMove.
  rewrite Hdrag. cbn [negb].
  unfold position in Hfar. cbn [fst snd] in Hfar. rewrite Hfar.
  reflexivity.
Qed.

(** The first [switch] issues at most one call, a [fillStyle] assignment,
    and the context's [fillStyle] is then the one assigned. *)
Lemma select_color_calls (p : page) (c : option Z) (g : context2d) :
  (select_color p c g = g)
  \/ (exists s, select_color p c g = set_fillStyle s g).
Proof.
  destruct c as [[|[q|q|]|q]|]; cbn [select_color]; eauto.
  all: destruct q as [[q|q|]|[q|q|]|]; cbn [select_color]; eauto.
Qed.

Lemma issue_nil (g : context2d) : issue [] g = g.
Proof. destruct g as [style cs]. unfold issue. cbn. rewrite app_nil_r. reflexivity. Qed.

Lemma INR_numOfVertices : INR numOfVertices = 13%R.
Proof. unfold numOfVertices. rewrite INR_IZR_INZ. reflexivity. Qed.

Lemma star_vertex_polar (x y : Z) (k : nat) :
  star_vertex x y k = polar x y 50 (INR k * 2 * PI / 13).
Proof.
  unfold star_vertex, polar, size. rewrite INR_numOfVertices. reflexivity.
Qed.

Lemma polar_radius (x y : Z) (r theta : R) :
  ((fst (polar x y r theta) - IZR x) * (fst (polar x y r theta) - IZR x)
   + (snd (polar x y r theta) - IZR y) * (snd (polar x y r theta) - IZR y)
   = r * r)%R.
Proof.
  unfold polar. cbn [fst snd].
  pose proof (sin2_cos2 theta) as H. unfold Rsqr in H.
  nra.
Qed.

End HandlerFacts.

Import Handler Session.

(** C2.  A move that arrives during a drag at Manhattan distance less
    than 3 from [(prevX, prevY)] changes nothing: the world after
    [doMouseMove] is the world before, so no call is issued on the
    graphics context (nothing is filled or stroked) and [prevX], [prevY]
    keep their values. *)
Theorem C2_close_move_discarded :
  forall (evt : MouseEvent) (p : page) (w : world) (px py : Z),
    dragging (vars w) = true ->
    prevX (vars w) = Some px ->
    prevY (vars w) = Some py ->
    (Z.abs (fst (position evt p) - px)
     + Z.abs (snd (position evt p) - py) < 3)%Z ->
    doMouseMove evt p w = w
    /\ issued w (doMouseMove evt p w) []
    /\ prevX (vars (doMouseMove evt p w)) = Some px
    /\ prevY (vars (doMouseMove evt p w)) = Some py.
Proof.
  intros evt p w px py Hdrag Hx Hy Hnear.
  assert (E : doMouseMove evt p w = w).
  { unfold doMouseMove. rewrite Hdrag. cbn [negb].
    unfold too_close. rewrite Hx, Hy.
    unfold position in Hnear. cbn [fst snd] in Hnear.
    apply Z.ltb_lt in Hnear. rewrite Hnear. reflexivity. }
  rewrite E. unfold issued. rewrite app_nil_r. auto.
Qed.

Lemma C2_close_move_discarded_witness :
  let w := run [occ mousedown 50 50 1 0] (init 300 200) in
  doMouseMove (pointer 51 51) (controls 1 0) w = w
  /\ issued w (doMouseMove (pointer 51 51) (controls 1 0) w) []
  /\ prevX (vars (doMouseMove (pointer 51 51) (controls 1 0) w)) = Some 50%Z
  /\ prevY (vars (doMouseMove (pointer 51 51) (controls 1 0) w)) = Some 50%Z.
Proof.
  apply (C2_close_move_discarded (pointer 51 51) (controls 1 0)
           (run [occ mousedown 50 50 1 0] (init 300 200)) 50 50).
  - reflexivity.
  - reflexivity.
  - reflexivity.
  - vm_compute. reflexivity.
Defined.

(** C3.  A move that is not discarded, with [shapeType] 1 (star), issues
    after the color switch: [beginPath], then exactly 15 path commands,
    one [moveTo] followed by 14 [lineTo], then [fill], then [stroke].  The
    [moveTo] goes to the point at angle 0 and the k-th [lineTo], for
    k = 0..13, to the point at angle k*2*PI/13, all of them at distance 50
    from the position [(x, y)] of the event. *)
Theorem C3_star_path :
  forall (evt : MouseEvent) (p : page) (w : world),
    qualifying evt p w ->
    shapeType (vars w) = Some 1%Z ->
    let x := fst (position evt p) in
    let y := snd (position evt p) in
    let vertex := fun k : nat => polar x y 50 (INR k * 2 * PI / 13) in
    let path :=
      moveTo_point (polar x y 50 0)
        :: map (fun k => lineTo_point (vertex k)) (seq 0 14) in
    calls (graphics (doMouseMove evt p w))
    = calls (select_color p (colorChoice (vars w)) (graphics w))
        ++ [BeginPath] ++ path ++ [Fill; Stroke]
    /\ List.length (filter is_path_command ([BeginPath] ++ path ++ [Fill; Stroke]))
       = 15%nat
    /\ filter is_path_command ([BeginPath] ++ path ++ [Fill; Stroke]) = path
    /\ polar x y 50 0 = vertex 0%nat
    /\ (forall theta : R,
         let v := polar x y 50 theta in
         ((fst v - IZR x) * (fst v - IZR x)
          + (snd v - IZR y) * (snd v - IZR y) = 50 * 50)%R).
Proof.
  intros evt p w Hq Hshape x y vertex path.
  split; [|split; [reflexivity|split; [reflexivity|split]]].
  - rewrite (HandlerFacts.doMouseMove_qualifying evt p w Hq).
    cbn [on_vars on_graphics graphics calls issue vars].
    rewrite Hshape. cbn [draw_shape]. f_equal.
    unfold star, path.
    rewrite (map_ext
               (fun i => LineTo (fst (star_vertex x y i)) (snd (star_vertex x y i)))
               (fun k => lineTo_point (vertex k)))
      by (intro k; rewrite HandlerFacts.star_vertex_polar; reflexivity).
    reflexivity.
  - unfold vertex, polar. cbn [INR].
    replace (0 * 2 * PI / 13)%R with 0%R by lra. reflexivity.
  - intro theta. apply HandlerFacts.polar_radius.
Qed.

Lemma C3_star_path_witness :
  let w := run [occ mousedown 50 50 1 1] (init 300 200) in
  let vertex := fun k : nat => polar 50 55 50 (INR k * 2 * PI / 13) in
  let path :=
    moveTo_point (polar 50 55 50 0)
      :: map (fun k => lineTo_point (vertex k)) (seq 0 14) in
  calls (graphics (doMouseMove (pointer 50 55) (controls 1 1) w))
  = calls (select_color (controls 1 1) (colorChoice (vars w)) (graphics w))
      ++ [BeginPath] ++ path ++ [Fill; Stroke].
Proof.
  apply (C3_star_path (pointer 50 55) (controls 1 1)
           (run [occ mousedown 50 50 1 1] (init 300 200))).
  - split; reflexivity.
  - reflexivity.
Defined.

(** C4.  A move that is not discarded, with [shapeType] 0 (square), issues
    after the color switch a [fillRect] and then a [strokeRect] of the
    40 by 40 rectangle whose corner is [(x - 20, y - 20)], that is, whose
    center is the position [(x, y)] of the event; the fill uses the fill
    style that the color switch left, which for [colorChoice] 1, 2, 3, 4
    is "red", "green", "blue", "yellow".
    In the scenario (down at (50,50) with color 1 and shape 0, move to
    (50,55)) the calls are [fillStyle = "red"], [fillRect(30,35,40,40)],
    [strokeRect(30,35,40,40)]. *)
Theorem C4_square_stamp :
  (forall (evt : MouseEvent) (p : page) (w : world),
      qualifying evt p w ->
      shapeType (vars w) = Some 0%Z ->
      let x := fst (position evt p) in
      let y := snd (position evt p) in
      let g := select_color p (colorChoice (vars w)) (graphics w) in
      calls (graphics (doMouseMove evt p w))
      = calls g ++ [FillRect (IZR x - 20) (IZR y - 20) 40 40;
                    StrokeRect (IZR x - 20) (IZR y - 20) 40 40]%R
      /\ fillStyle (graphics (doMouseMove evt p w)) = fillStyle g
      /\ (forall (c : Z) (name : string),
             In (c, name) [(1%Z, "red"%string); (2%Z, "green"%string);
                           (3%Z, "blue"%string); (4%Z, "yellow"%string)] ->
             colorChoice (vars w) = Some c ->
             fillStyle g = name
             /\ calls g = calls (graphics w) ++ [SetFillStyle name])
      /\ ((IZR x - 20) + 40 / 2 = IZR x /\ (IZR y - 20) + 40 / 2 = IZR y)%R)
  /\ (forall width height : Z,
      let w0 := init width height in
      let w1 := run [occ mousedown 50 50 1 0] w0 in
      let w2 := run [occ mousemove 50 55 1 0] w1 in
      issued w0 w1 []
      /\ issued w1 w2 [SetFillStyle "red"; FillRect 30 35 40 40;
                       StrokeRect 30 35 40 40]%R
      /\ fillStyle (graphics w2) = "red"%string).
Proof.
  split.
  - intros evt p w Hq Hshape x y g.
    split; [|split; [|split]].
    + rewrite (HandlerFacts.doMouseMove_qualifying evt p w Hq).
      cbn [on_vars on_graphics graphics calls issue vars].
      rewrite Hshape. cbn [draw_shape]. f_equal.
      unfold square. rewrite !minus_IZR. reflexivity.
    + rewrite (HandlerFacts.doMouseMove_qualifying evt p w Hq). reflexivity.
    + intros c name Hin Hc. unfold g. rewrite Hc. cbn [In] in Hin.
      destruct Hin as [E|[E|[E|[E|[]]]]]; injection E as <- <-;
        split; reflexivity.
    + split; lra.
  - intros width height w0 w1 w2. unfold issued.
    split; [|split]; reflexivity.
Qed.

Lemma C4_square_stamp_witness :
  let w := run [occ mousedown 10 10 2 0] (init 300 200) in
  let g := select_color (controls 2 0) (colorChoice (vars w)) (graphics w) in
  calls (graphics (doMouseMove (pointer 40 60) (controls 2 0) w))
  = calls g ++ [FillRect (40 - 20) (60 - 20) 40 40;
                StrokeRect (40 - 20) (60 - 20) 40 40]%R
  /\ fillStyle g = "green"%string.
Proof.
  destruct C4_square_stamp as [H _].
  destruct (H (pointer 40 60) (controls 2 0)
              (run [occ mousedown 10 10 2 0] (init 300 200)))
    as (Hcalls & _ & Hname & _).
  - split; reflexivity.
  - reflexivity.
  - split; [exact Hcalls|].
    apply (Hname 2%Z "green"%string); [cbn; auto | reflexivity].
Defined.

(** ** Event delivery and the reachable worlds *)

Module DeliveryFacts.
Import Handler Session.

(** A property that every handler preserves is preserved by the delivery
    of any event, whatever the listener tables hold. *)
Section Preservation.
Variable P : world -> Prop.
Hypothesis P_invoke :
  forall f evt p w, P w -> P (invoke f evt p w).

Lemma deliver_at_preserves ty evt p t :
  forall w, P w -> P (deliver_at ty evt p w t).
Proof.
  intro w. unfold deliver_at.
  generalize (filter
                (fun l => target_eqb (l_target l) t && evtype_eqb (l_type l) ty)
                (listeners w)).
  intro ls. revert w.
  induction ls as [|l ls IH]; intros w Hw; cbn [fold_left]; [exact Hw|].
  apply IH. destruct (registered l (listeners w)); auto.
Qed.

Lemma dispatch_preserves ty evt p :
  forall w, P w -> P (dispatch ty evt p w).
Proof.
  unfold dispatch. generalize (propagation (e_target evt)).
  intro ts. induction ts as [|t ts IH]; intros w Hw; cbn [fold_left]; [exact Hw|].
  apply IH. apply deliver_at_preserves. exact Hw.
Qed.

Lemma run_preserves os :
  forall w, P w -> P (run os w).
Proof.
  unfold run. induction os as [|o os IH]; intros w Hw; cbn [fold_left]; [exact Hw|].
  apply IH. apply dispatch_preserves. exact Hw.
Qed.
End Preservation.

Lemma installed_init width height : installed (init width height).
Proof. left. split; [reflexivity | left; reflexivity]. Qed.

Lemma installed_doMouseDown evt p w :
  installed w -> installed (doMouseDown evt p w).
Proof.
  intros Hi. unfold doMouseDown.
  destruct (dragging (vars w)) eqn:Hd; [exact Hi|].
  destruct (negb (button evt =? 0)%Z); [exact Hi|].
  destruct Hi as [[_ HL]|[Hd' _]]; [|congruence].
  right. split; [reflexivity|].
  cbn [on_vars on_listeners vars listeners set_dragging dragging].
  destruct HL as [HL|HL]; rewrite HL; [left | right]; reflexivity.
Qed.

Lemma installed_doMouseMove evt p w :
  installed w -> installed (doMouseMove evt p w).
Proof.
  intros Hi. unfold doMouseMove.
  destruct (negb (dragging (vars w))); [exact Hi|].
  destruct (too_close _ _ _); exact Hi.
Qed.

Lemma installed_doMouseUp evt p w :
  installed w -> installed (doMouseUp evt p w).
Proof.
  intros Hi. unfold doMouseUp.
  destruct (dragging (vars w)) eqn:Hd; cbn [negb]; [|exact Hi].
  destruct Hi as [[Hd' _]|[_ HL]]; [congruence|].
  left. split; [reflexivity|]. right.
  cbn [on_vars on_listeners listeners].
  destruct HL as [HL|HL]; rewrite HL; reflexivity.
Qed.

Lemma installed_invoke f evt p w :
  installed w -> installed (invoke f evt p w).
Proof.
  destruct f; cbn [invoke];
    [apply installed_doMouseDown | apply installed_doMouseMove
     | apply installed_doMouseUp].
Qed.

Lemma installed_run os width height : installed (run os (init width height)).
Proof.
  apply (run_preserves installed).
  - intros f evt p w. apply installed_invoke.
  - apply installed_init.
Qed.

(** Once the program is installed, each target hands an event to the one
    handler registered for it there. *)
Lemma deliver_at_installed ty evt p w t :
  installed w ->
  deliver_at ty evt p w t
  = match t, ty with
    | Canvas, mousedown => doMouseDown evt p w
    | Document, mousemove => doMouseMove evt p w
    | Document, mouseup => doMouseUp evt p w
    | _, _ => w
    end.
Proof.
  intros [[Hd [HL|HL]]|[Hd [HL|HL]]];
    unfold deliver_at; rewrite HL; destruct t, ty;
    cbn [filter l_target l_type target_eqb evtype_eqb andb
           L_down L_move L_up fold_left];
    try reflexivity;
    try (rewrite HL; reflexivity);
    try (unfold doMouseMove; rewrite Hd; reflexivity);
    try (unfold doMouseUp; rewrite Hd; reflexivity).
Qed.

Lemma dispatch_installed ty evt p w :
  installed w -> dispatch ty evt p w = step ty evt p w.
Proof.
  intros Hi. unfold dispatch, step.
  destruct (e_target evt); cbn [propagation fold_left].
  - rewrite (deliver_at_installed ty evt p w Canvas Hi).
    destruct ty.
    + rewrite deliver_at_installed by (apply installed_doMouseDown; exact Hi).
      reflexivity.
    + apply deliver_at_installed; exact Hi.
    + apply deliver_at_installed; exact Hi.
  - rewrite (deliver_at_installed ty evt p w Document Hi).
    destruct ty; reflexivity.
Qed.

Lemma installed_step ty evt p w :
  installed w -> installed (step ty evt p w).
Proof.
  intros Hi. rewrite <- dispatch_installed by exact Hi.
  apply (dispatch_preserves installed); [|exact Hi].
  intros f e q v. apply installed_invoke.
Qed.

Lemma run_cons o os w :
  run (o :: os) w = run os (dispatch (o_type o) (o_event o) (o_page o) w).
Proof. reflexivity. Qed.

End DeliveryFacts.

(** C1 (the code at the failing input).  After a press and a release of
    the main button, the drag is over and the move listener is gone, but
    [doMouseUp] is still registered for "mouseup" on the document: the
    second [removeEventListener] names [doMouseMove], which was never
    registered for "mouseup".  The same holds after [doMouseUp] in every
    world the program can be in during a drag. *)
Theorem C1_up_listener_left_registered :
  (forall width height : Z,
      let w := run [occ mousedown 50 50 1 0; occ mouseup 50 50 1 0]
                 (init width height) in
      dragging (vars w) = false
      /\ listeners w = [L_down; L_up]
      /\ registered L_move (listeners w) = false
      /\ registered L_up (listeners w) = true)
  /\ (forall (os : list occurrence) (width height : Z)
             (evt : MouseEvent) (p : page),
      let w := run os (init width height) in
      dragging (vars w) = true ->
      registered L_up (listeners (doMouseUp evt p w)) = true
      /\ removeEventListener Document mouseup fn_doMouseMove false (listeners w)
         = listeners w).
Proof.
  split.
  - intros width height w. repeat split.
  - intros os width height evt p w Hd.
    pose proof (DeliveryFacts.installed_run os width height) as Hi.
    fold w in Hi. destruct Hi as [[Hd' _]|[_ HL]]; [congruence|].
    unfold doMouseUp. rewrite Hd.
    cbn [negb on_vars on_listeners listeners].
    destruct HL as [HL|HL]; rewrite HL; split; reflexivity.
Qed.

Lemma C1_up_listener_left_registered_witness :
  let w := run [occ mousedown 50 50 1 0] (init 300 200) in
  registered L_up (listeners (doMouseUp (pointer 50 50) (controls 1 0) w)) = true
  /\ removeEventListener Document mouseup fn_doMouseMove false (listeners w)
     = listeners w.
Proof.
  destruct C1_up_listener_left_registered as [_ H].
  apply (H [occ mousedown 50 50 1 0] 300%Z 200%Z (pointer 50 50) (controls 1 0)).
  reflexivity.
Defined.

(** C5 as stated fails: with a color index outside 0..4 and shape 0, a
    move that is not discarded still fills and strokes the square, with
    the fill style the context already had. *)
Lemma C5_counterexample :
  let w := run [occ mousedown 50 50 7 0] (init 300 200) in
  let w' := doMouseMove (pointer 50 55) (controls 7 0) w in
  qualifying (pointer 50 55) (controls 7 0) w
  /\ colorChoice (vars w) = Some 7%Z
  /\ issued w w' [FillRect 30 35 40 40; StrokeRect 30 35 40 40]%R
  /\ existsb is_paint [FillRect 30 35 40 40; StrokeRect 30 35 40 40]%R = true.
Proof.
  repeat split.
Qed.

(** C5 (amended).  For a move that is not discarded: when [shapeType]
    is neither 0 nor 1, no path is built and nothing is painted, the only
    call that can be issued being the [fillStyle] assignment of the color
    switch; when [colorChoice] is not one of 0..4, the fill style is left
    as it was and the calls issued are exactly those of the shape switch.
    In both cases [prevX] and [prevY] become the position of the event. *)
Theorem C5_unmatched_selection :
  forall (evt : MouseEvent) (p : page) (w : world),
    qualifying evt p w ->
    let x := fst (position evt p) in
    let y := snd (position evt p) in
    let w' := doMouseMove evt p w in
    (shapeType (vars w) <> Some 0%Z ->
     shapeType (vars w) <> Some 1%Z ->
     graphics w' = select_color p (colorChoice (vars w)) (graphics w)
     /\ exists cs, issued w w' cs
                   /\ forallb (fun c => negb (is_paint c || is_path_command c)) cs
                      = true)
    /\ ((forall c, colorChoice (vars w) = Some c -> (c < 0 \/ 4 < c)%Z) ->
        fillStyle (graphics w') = fillStyle (graphics w)
        /\ issued w w' (draw_shape x y (shapeType (vars w))))
    /\ prevX (vars w') = Some x
    /\ prevY (vars w') = Some y.
Proof.
  intros evt p w Hq x y w'. unfold w', issued.
  rewrite (HandlerFacts.doMouseMove_qualifying evt p w Hq).
  cbn [on_vars on_graphics graphics vars prevX prevY set_prev].
  split; [|split; [|split; reflexivity]].
  - intros H0 H1.
    assert (Hnone : draw_shape (fst (position evt p)) (snd (position evt p))
                      (shapeType (vars w)) = []).
    { destruct (shapeType (vars w)) as [[|[q|q|]|q]|]; try reflexivity;
        congruence. }
    rewrite Hnone, HandlerFacts.issue_nil.
    split; [reflexivity|].
    + destruct (HandlerFacts.select_color_calls p (colorChoice (vars w))
                  (graphics w)) as [E|[s E]]; rewrite E.
      * exists []. rewrite app_nil_r. split; reflexivity.
      * exists [SetFillStyle s]. split; reflexivity.
  - intros Hout.
    assert (Hsame : select_color p (colorChoice (vars w)) (graphics w)
                    = graphics w).
    { destruct (colorChoice (vars w)) as [c|] eqn:Hc; [|reflexivity].
      specialize (Hout c eq_refl).
      destruct c as [|[q|q|]|q]; try lia; try reflexivity.
      all: destruct q as [[q|q|]|[q|q|]|]; try lia; reflexivity. }
    rewrite Hsame. unfold issue. split; reflexivity.
Qed.

Lemma C5_unmatched_selection_witness :
  let w := run [occ mousedown 50 50 7 5] (init 300 200) in
  let w' := doMouseMove (pointer 50 55) (controls 7 5) w in
  graphics w' = graphics w
  /\ fillStyle (graphics w') = "white"%string
  /\ issued w w' []
  /\ prevX (vars w') = Some 50%Z
  /\ prevY (vars w') = Some 55%Z.
Proof.
  destruct (C5_unmatched_selection (pointer 50 55) (controls 7 5)
              (run [occ mousedown 50 50 7 5] (init 300 200)))
    as (Hshape & Hcolor & Hx & Hy).
  - split; reflexivity.
  - destruct Hshape as [Hgraphics _]; [discriminate | discriminate |].
    destruct Hcolor as [Hstyle Hcalls].
    + intros c Hc. injection Hc as <-. lia.
    + repeat split; assumption.
Defined.

(** C8 as stated fails: after a press and a release the drag is over
    ([dragging] is false) and [prevX], [prevY] still hold the last
    position. *)
Lemma C8_counterexample :
  let w := run [occ mousedown 50 50 1 0; occ mouseup 50 50 1 0] (init 300 200) in
  dragging (vars w) = false
  /\ prevX (vars w) = Some 50%Z
  /\ prevY (vars w) = Some 50%Z.
Proof.
  repeat split.
Qed.

(** ** The previous position *)

Module PrevFacts.
Import Handler Session.

(** No handler makes [prevX] or [prevY] undefined again. *)
Lemma prev_defined_invoke f evt p w :
  prev_defined w -> prev_defined (invoke f evt p w).
Proof.
  intros Hw. destruct f; cbn [invoke].
  - unfold doMouseDown.
    destruct (dragging (vars w)); [exact Hw|].
    destruct (negb (button evt =? 0)%Z); [exact Hw|].
    eexists. eexists. split; reflexivity.
  - unfold doMouseMove.
    destruct (negb (dragging (vars w))); [exact Hw|].
    destruct (too_close _ _ _); [exact Hw|].
    eexists. eexists. split; reflexivity.
  - unfold doMouseUp.
    destruct (negb (dragging (vars w))); exact Hw.
Qed.

(** A handler that runs in the initial world leaves it as it is, unless it
    is the press that starts the first drag. *)
Lemma initial_or_defined_invoke width height f evt p w :
  w = init width height \/ prev_defined w ->
  invoke f evt p w = init width height \/ prev_defined (invoke f evt p w).
Proof.
  intros [->|Hw]; [|right; apply prev_defined_invoke; exact Hw].
  destruct f; cbn [invoke].
  - unfold doMouseDown. cbn [init vars dragging].
    destruct (negb (button evt =? 0)%Z); [left; reflexivity|].
    right. eexists. eexists. split; reflexivity.
  - left. reflexivity.
  - left. reflexivity.
Qed.

(** The press that starts a drag defines [prevX] and [prevY]. *)
Lemma arming_defines_prev (o : occurrence) (w : world) :
  installed w ->
  dragging (vars w) = false ->
  arming o ->
  prev_defined (dispatch (o_type o) (o_event o) (o_page o) w).
Proof.
  intros Hi Hd (Hty & Htarget & Hbutton).
  rewrite (DeliveryFacts.dispatch_installed _ _ _ _ Hi).
  unfold step. rewrite Hty, Htarget. unfold doMouseDown.
  rewrite Hd, Hbutton. cbn.
  eexists. eexists. split; reflexivity.
Qed.

End PrevFacts.

(** C8 (amended).  In every world that a sequence of events leads to from
    the initial one, [prevX] and [prevY] are defined whenever a drag is in
    progress.  They are undefined in the initial world and in no other:
    a world in which one of them is undefined is still the initial world.
    Once they are defined they stay defined through every later event, so
    they are defined after the press that starts a drag and after
    whatever follows it, the release included: [doMouseUp] leaves them as
    they are. *)
Theorem C8_prev_defined_while_dragging :
  forall (os : list occurrence) (width height : Z),
    let w := run os (init width height) in
    (dragging (vars w) = true ->
     exists x y : Z, prevX (vars w) = Some x /\ prevY (vars w) = Some y)
    /\ dragging (vars (init width height)) = false
    /\ prevX (vars (init width height)) = None
    /\ prevY (vars (init width height)) = None
    /\ (forall (evt : MouseEvent) (p : page),
         prevX (vars (doMouseUp evt p w)) = prevX (vars w)
         /\ prevY (vars (doMouseUp evt p w)) = prevY (vars w))
    /\ (prevX (vars w) = None \/ prevY (vars w) = None ->
        w = init width height)
    /\ (forall more : list occurrence,
          prev_defined w -> prev_defined (run more w))
    /\ (forall (down : occurrence) (more : list occurrence),
          dragging (vars w) = false ->
          arming down ->
          prev_defined (run (down :: more) w)).
Proof.
  intros os width height w.
  assert (Hkeep : forall (more : list occurrence) (v : world),
             prev_defined v -> prev_defined (run more v)).
  { intros more v Hv.
    apply (DeliveryFacts.run_preserves prev_defined); [|exact Hv].
    intros f evt p u. apply PrevFacts.prev_defined_invoke. }
  split; [|split; [|split; [|split; [|split; [|split; [|split]]]]]];
    try reflexivity.
  - unfold w.
    apply (DeliveryFacts.run_preserves
             (fun w => dragging (vars w) = true ->
                       exists x y : Z,
                         prevX (vars w) = Some x /\ prevY (vars w) = Some y)).
    + intros f evt p v Hv. destruct f; cbn [invoke].
      * unfold doMouseDown.
        destruct (dragging (vars v)) eqn:Hd; [intros _; auto|].
        destruct (negb (button evt =? 0)%Z); [rewrite Hd; discriminate|].
        intros _. eexists. eexists. split; reflexivity.
      * unfold doMouseMove.
        destruct (dragging (vars v)) eqn:Hd; cbn [negb];
          [|rewrite Hd; discriminate].
        destruct (too_close _ _ _); [intros _; auto|].
        intros _. eexists. eexists. split; reflexivity.
      * unfold doMouseUp.
        destruct (dragging (vars v)) eqn:Hd; cbn [negb];
          [|rewrite Hd; discriminate].
        cbn. discriminate.
    + cbn. discriminate.
  - intros evt p. unfold doMouseUp.
    destruct (dragging (vars w)); split; reflexivity.
  - intros Hnone.
    assert (H : w = init width height \/ prev_defined w).
    { unfold w.
      apply (DeliveryFacts.run_preserves
               (fun v => v = init width height \/ prev_defined v)).
      - intros f evt p v. apply PrevFacts.initial_or_defined_invoke.
      - left. reflexivity. }
    destruct H as [H|(x & y & Hx & Hy)]; [exact H|].
    destruct Hnone as [Hn|Hn]; congruence.
  - intros more. apply Hkeep.
  - intros down more Hd Harm.
    rewrite DeliveryFacts.run_cons. apply Hkeep.
    apply PrevFacts.arming_defines_prev; [|exact Hd|exact Harm].
    apply DeliveryFacts.installed_run.
Qed.

Lemma C8_prev_defined_while_dragging_witness :
  (exists x y : Z,
      prevX (vars (run [occ mousedown 50 50 1 0; occ mousemove 60 70 1 0]
                     (init 300 200))) = Some x
      /\ prevY (vars (run [occ mousedown 50 50 1 0; occ mousemove 60 70 1 0]
                        (init 300 200))) = Some y)
  /\ run [] (init 300 200) = init 300 200
  /\ prev_defined
       (run [occ mouseup 60 70 1 0; occ mousemove 10 10 1 0]
          (run [occ mousedown 50 50 1 0; occ mousemove 60 70 1 0]
             (init 300 200)))
  /\ prev_defined
       (run [occ mousedown 50 50 1 0; occ mouseup 50 50 1 0;
             occ mousemove 80 80 1 0]
          (run [] (init 300 200))).
Proof.
  destruct (C8_prev_defined_while_dragging
              [occ mousedown 50 50 1 0; occ mousemove 60 70 1 0] 300%Z 200%Z)
    as (Hdrag & _ & _ & _ & _ & _ & Hkeep & _).
  destruct (C8_prev_defined_while_dragging [] 300%Z 200%Z)
    as (_ & _ & _ & _ & _ & Hinit & _ & Harm).
  split; [apply Hdrag; reflexivity|].
  split; [apply Hinit; left; reflexivity|].
  split.
  - apply Hkeep. apply Hdrag. reflexivity.
  - apply Harm; [reflexivity | repeat split].
Defined.

(** ** A drag session *)

Module DragFacts.
Import Handler Session.

Lemma doMouseMove_choice_free evt p w c s :
  doMouseMove evt (with_choices c s p) w = doMouseMove evt p w.
Proof. reflexivity. Qed.

Lemma doMouseUp_choice_free evt p w c s :
  doMouseUp evt (with_choices c s p) w = doMouseUp evt p w.
Proof. reflexivity. Qed.

Lemma doMouseDown_dragging evt p w :
  dragging (vars w) = true -> doMouseDown evt p w = w.
Proof. intros H. unfold doMouseDown. rewrite H. reflexivity. Qed.

Lemma doMouseMove_keeps evt p w :
  dragging (vars (doMouseMove evt p w)) = dragging (vars w)
  /\ colorChoice (vars (doMouseMove evt p w)) = colorChoice (vars w)
  /\ shapeType (vars (doMouseMove evt p w)) = shapeType (vars w).
Proof.
  unfold doMouseMove.
  destruct (negb (dragging (vars w))); [auto|].
  destruct (too_close _ _ _); auto.
Qed.

Lemma doMouseUp_keeps evt p w :
  colorChoice (vars (doMouseUp evt p w)) = colorChoice (vars w)
  /\ shapeType (vars (doMouseUp evt p w)) = shapeType (vars w).
Proof.
  unfold doMouseUp. destruct (negb (dragging (vars w))); auto.
Qed.

Lemma draw_shape_no_fillStyle x y sh s :
  ~ In (SetFillStyle s) (draw_shape x y sh).
Proof.
  intros Hin.
  destruct sh as [[|[q|q|]|q]|]; cbn [draw_shape] in Hin; try contradiction.
  - unfold square in Hin. cbn in Hin. intuition discriminate.
  - unfold star in Hin.
    apply in_app_or in Hin. destruct Hin as [Hin|Hin].
    + cbn in Hin. intuition discriminate.
    + apply in_app_or in Hin. destruct Hin as [Hin|Hin].
      * apply in_map_iff in Hin. destruct Hin as (k & Hk & _). discriminate.
      * cbn in Hin. intuition discriminate.
Qed.

(** What one move issues when the frozen color is 1. *)
Lemma doMouseMove_red evt p w :
  colorChoice (vars w) = Some 1%Z ->
  exists cs, issued w (doMouseMove evt p w) cs
             /\ forall s, In (SetFillStyle s) cs -> s = "red"%string.
Proof.
  intros Hc. unfold issued, doMouseMove.
  destruct (negb (dragging (vars w)));
    [exists []; rewrite app_nil_r; split; [reflexivity | intros s []]|].
  destruct (too_close _ _ _);
    [exists []; rewrite app_nil_r; split; [reflexivity | intros s []]|].
  cbn [on_vars on_graphics graphics vars calls issue].
  rewrite Hc. cbn [select_color set_fillStyle calls].
  eexists. split; [rewrite <- app_assoc; reflexivity|].
  intros s Hin. apply in_app_or in Hin. destruct Hin as [[Hin|[]]|Hin].
  - injection Hin as <-. reflexivity.
  - exfalso. exact (draw_shape_no_fillStyle _ _ _ _ Hin).
Qed.

(** Events without a release, delivered during a drag: the drag goes on,
    the two choices stay what they are, what the selection controls show
    is not looked at, and with color 1 every fill style assigned is "red". *)
Lemma drag_run (os : list occurrence) :
  forall w : world,
    installed w ->
    dragging (vars w) = true ->
    no_release os ->
    installed (run os w)
    /\ dragging (vars (run os w)) = true
    /\ colorChoice (vars (run os w)) = colorChoice (vars w)
    /\ shapeType (vars (run os w)) = shapeType (vars w)
    /\ (forall os', Forall2 recontrolled os os' -> run os' w = run os w)
    /\ (colorChoice (vars w) = Some 1%Z ->
        exists cs, issued w (run os w) cs
                   /\ forall s, In (SetFillStyle s) cs -> s = "red"%string).
Proof.
  induction os as [|o os IH]; intros w Hi Hd Hno.
  - cbn [run fold_left]. repeat split; try assumption.
    + intros os' H. inversion H. reflexivity.
    + intros _. exists []. unfold issued. rewrite app_nil_r.
      split; [reflexivity | intros s []].
  - inversion Hno as [|o' os' Hty Hrest]; subst.
    rewrite DeliveryFacts.run_cons.
    rewrite (DeliveryFacts.dispatch_installed _ _ _ _ Hi).
    set (w1 := step (o_type o) (o_event o) (o_page o) w).
    assert (Hi1 : installed w1) by (apply DeliveryFacts.installed_step; exact Hi).
    assert (Hkeep : dragging (vars w1) = true
                    /\ colorChoice (vars w1) = colorChoice (vars w)
                    /\ shapeType (vars w1) = shapeType (vars w)).
    { unfold w1, step. destruct (o_type o); [| |congruence].
      - destruct (e_target (o_event o)); [|auto].
        rewrite doMouseDown_dragging by exact Hd. auto.
      - destruct (doMouseMove_keeps (o_event o) (o_page o) w) as (E1 & E2 & E3).
        rewrite E1. auto. }
    destruct Hkeep as (Hd1 & Hc1 & Hs1).
    destruct (IH w1 Hi1 Hd1 Hrest) as (Hi2 & Hd2 & Hc2 & Hs2 & Hfree & Hred).
    split; [exact Hi2|]. split; [exact Hd2|].
    split; [congruence|]. split; [congruence|]. split.
    + intros os' HF. inversion HF as [|a b la lb Hab Hrestab]; subst.
      rewrite DeliveryFacts.run_cons.
      rewrite (DeliveryFacts.dispatch_installed _ _ _ _ Hi).
      destruct Hab as (c & s & ->). cbn [o_type o_event o_page].
      replace (step (o_type o) (o_event o) (with_choices c s (o_page o)) w)
        with w1; [apply Hfree; exact Hrestab|].
      unfold w1, step. destruct (o_type o); [| reflexivity | reflexivity].
      destruct (e_target (o_event o)); [|reflexivity].
      rewrite !doMouseDown_dragging by exact Hd. reflexivity.
    + intros Hc.
      destruct (Hred (eq_trans Hc1 Hc)) as (cs2 & Hiss2 & Hall2).
      assert (H1 : exists cs1, issued w w1 cs1
                     /\ forall s, In (SetFillStyle s) cs1 -> s = "red"%string).
      { unfold w1, step. destruct (o_type o); [| |congruence].
        - exists []. unfold issued. rewrite app_nil_r.
          split; [|intros s []].
          destruct (e_target (o_event o)); [|reflexivity].
          rewrite doMouseDown_dragging by exact Hd. reflexivity.
        - apply doMouseMove_red. exact Hc. }
      destruct H1 as (cs1 & Hiss1 & Hall1).
      exists (cs1 ++ cs2). split.
      * unfold issued in *. rewrite Hiss2, Hiss1, app_assoc. reflexivity.
      * intros s Hin. apply in_app_or in Hin. destruct Hin; auto.
Qed.

(** The arming press: the drag starts, the two choices are read from the
    selection controls, and nothing is drawn. *)
Lemma arming_press (o : occurrence) (w : world) :
  installed w ->
  dragging (vars w) = false ->
  arming o ->
  let w1 := run [o] w in
  installed w1
  /\ dragging (vars w1) = true
  /\ colorChoice (vars w1) = Some (colorChoice_value (o_page o))
  /\ shapeType (vars w1) = Some (shapeType_value (o_page o))
  /\ issued w w1 [].
Proof.
  intros Hi Hd (Hty & Htarget & Hbutton) w1. unfold w1.
  rewrite DeliveryFacts.run_cons. cbn [run fold_left].
  rewrite (DeliveryFacts.dispatch_installed _ _ _ _ Hi).
  split; [apply DeliveryFacts.installed_step; exact Hi|].
  unfold step, issued. rewrite Hty, Htarget. unfold doMouseDown.
  rewrite Hd, Hbutton. cbn. rewrite app_nil_r. repeat split.
Qed.

End DragFacts.

(** C9.  [doMouseMove] and [doMouseUp] do not look at the selection
    controls.  Over a whole drag (an arming press followed by events
    without a release) the two choices are the values the controls showed
    at the press, whatever the controls show during the later events, and
    the resulting world does not depend on what they show then.  With
    color 1 every fill style assigned during the drag is "red", and every
    move that is not discarded leaves the fill style "red". *)
Theorem C9_choices_frozen_for_the_drag :
  forall (before : list occurrence) (width height : Z) (down : occurrence)
         (during during' : list occurrence),
    let w0 := run before (init width height) in
    dragging (vars w0) = false ->
    arming down ->
    no_release during ->
    Forall2 recontrolled during during' ->
    let w1 := run (down :: during) w0 in
    (forall evt p w c s,
        doMouseMove evt (with_choices c s p) w = doMouseMove evt p w
        /\ doMouseUp evt (with_choices c s p) w = doMouseUp evt p w)
    /\ dragging (vars w1) = true
    /\ colorChoice (vars w1) = Some (colorChoice_value (o_page down))
    /\ shapeType (vars w1) = Some (shapeType_value (o_page down))
    /\ run (down :: during') w0 = w1
    /\ (colorChoice_value (o_page down) = 1%Z ->
        (exists cs, issued w0 w1 cs
                    /\ forall s, In (SetFillStyle s) cs -> s = "red"%string)
        /\ (forall evt p, qualifying evt p w1 ->
                          fillStyle (graphics (doMouseMove evt p w1))
                          = "red"%string)).
Proof.
  intros before width height down during during' w0 Hidle Harm Hno Hre w1.
  pose proof (DeliveryFacts.installed_run before width height) as Hi0.
  fold w0 in Hi0.
  destruct (DragFacts.arming_press down w0 Hi0 Hidle Harm)
    as (Hi & Hd & Hc & Hs & Hiss).
  assert (E1 : w1 = run during (run [down] w0)) by reflexivity.
  assert (E2 : run (down :: during') w0 = run during' (run [down] w0))
    by reflexivity.
  rewrite E2. clearbody w1. subst w1.
  destruct (DragFacts.drag_run during (run [down] w0) Hi Hd Hno)
    as (_ & Hd' & Hc' & Hs' & Hfree & Hred).
  split; [intros; split; reflexivity|].
  split; [exact Hd'|]. split; [congruence|]. split; [congruence|].
  split; [apply Hfree; exact Hre|].
  intros Hone. rewrite Hone in Hc. split.
  - destruct (Hred Hc) as (cs & Hcs & Hall).
    exists cs. split; [|exact Hall].
    unfold issued in *. rewrite Hcs, Hiss, app_nil_r. reflexivity.
  - intros evt p Hq.
    rewrite (HandlerFacts.doMouseMove_qualifying evt p _ Hq).
    cbn [on_vars on_graphics graphics vars fillStyle issue].
    rewrite Hc', Hc. reflexivity.
Qed.

Lemma C9_choices_frozen_for_the_drag_witness :
  let w0 := run [] (init 300 200) in
  let w1 := run [occ mousedown 50 50 1 0;
                 occ mousemove 50 55 3 1; occ mousemove 60 60 2 1] w0 in
  colorChoice (vars w1) = Some 1%Z
  /\ shapeType (vars w1) = Some 0%Z
  /\ run [occ mousedown 50 50 1 0;
          occ mousemove 50 55 4 0; occ mousemove 60 60 0 0] w0 = w1.
Proof.
  destruct (C9_choices_frozen_for_the_drag
              [] 300%Z 200%Z (occ mousedown 50 50 1 0)
              [occ mousemove 50 55 3 1; occ mousemove 60 60 2 1]
              [occ mousemove 50 55 4 0; occ mousemove 60 60 0 0])
    as (_ & _ & Hc & Hs & Hsame & _).
  - reflexivity.
  - repeat split.
  - repeat constructor; discriminate.
  - repeat constructor.
    + exists 4%Z, 0%Z. reflexivity.
    + exists 0%Z, 0%Z. reflexivity.
  - repeat split; assumption.
Defined.

(** ** Ovals on the canvas *)

Module OvalFacts.
Import Extras Canvas2D.
Local Open Scope R_scope.

(** The unit circle, added to the path under the translated and scaled
    transform, is the ellipse with radii [rh] and [rv] around [(x, y)]. *)
Lemma oval_point (x y rh rv t : R) :
  apply (scale (translate identity x y) rh rv) (0 + 1 * cos t, 0 + 1 * sin t)
  = (x + rh * cos t, y + rv * sin t).
Proof.
  unfold apply, scale, translate, identity. cbn.
  f_equal; ring.
Qed.

Lemma on_oval_iff (x y rh rv : R) (q : R * R) :
  on_arc (scale (translate identity x y) rh rv) 0 0 1 0 (2 * PI) q
  <-> exists t, 0 <= t <= 2 * PI /\ q = (x + rh * cos t, y + rv * sin t).
Proof.
  unfold on_arc. split; intros (t & Ht & E); exists t; split; try exact Ht.
  - rewrite E. apply oval_point.
  - rewrite E. symmetry. apply oval_point.
Qed.

Lemma cos_sin_opposite (t : R) :
  0 <= t <= 2 * PI ->
  exists t', 0 <= t' <= 2 * PI /\ cos t' = - cos t /\ sin t' = - sin t.
Proof.
  intros Ht. pose proof PI_RGT_0 as Hpi.
  destruct (Rle_lt_dec t PI) as [Hle|Hgt].
  - exists (t + PI). split; [lra|]. split; [apply neg_cos | apply neg_sin].
  - exists (t - PI). split; [lra|].
    pose proof (neg_cos (t - PI)) as Hc. pose proof (neg_sin (t - PI)) as Hs.
    replace (t - PI + PI) with t in Hc, Hs by ring.
    split; lra.
Qed.

Lemma fill_on_canvas (x y rh rv : R) (s : state) :
  exec_all (fillOval x y rh rv) s
  = {| ctm := ctm s; saved := saved s;
       path := [P_arc (scale (translate (ctm s) x y) rh rv) 0 0 1 0 (2 * PI) false];
       painted := painted s ++
         [{| mk_paint := Filled;
             mk_outline :=
               [P_arc (scale (translate (ctm s) x y) rh rv) 0 0 1 0 (2 * PI) false];
             mk_pen := ctm s |}] |}.
Proof. reflexivity. Qed.

Lemma stroke_on_canvas (x y rh rv : R) (s : state) :
  exec_all (strokeOval x y rh rv) s
  = {| ctm := ctm s; saved := saved s;
       path := [P_arc (scale (translate (ctm s) x y) rh rv) 0 0 1 0 (2 * PI) false];
       painted := painted s ++
         [{| mk_paint := Stroked;
             mk_outline :=
               [P_arc (scale (translate (ctm s) x y) rh rv) 0 0 1 0 (2 * PI) false];
             mk_pen := ctm s |}] |}.
Proof. reflexivity. Qed.

Lemma oval_extents (x y rh rv : R) :
  0 <= rh -> 0 <= rv ->
  let S := on_arc (scale (translate identity x y) rh rv) 0 0 1 0 (2 * PI) in
  extent S fst (x - rh) (x + rh)
  /\ extent S snd (y - rv) (y + rv)
  /\ centered_at S (x, y).
Proof.
  intros Hrh Hrv S. pose proof PI_RGT_0 as Hpi.
  assert (HS : forall q, S q <-> exists t, 0 <= t <= 2 * PI
                                 /\ q = (x + rh * cos t, y + rv * sin t))
    by (intro q; apply on_oval_iff).
  split; [|split].
  - split; [|split].
    + intros q Hq. apply HS in Hq. destruct Hq as (t & _ & ->). cbn [fst].
      pose proof (COS_bound t). nra.
    + exists (x + rh * cos PI, y + rv * sin PI). split.
      * apply HS. exists PI. split; [lra | reflexivity].
      * cbn [fst]. rewrite cos_PI. ring.
    + exists (x + rh * cos 0, y + rv * sin 0). split.
      * apply HS. exists 0. split; [lra | reflexivity].
      * cbn [fst]. rewrite cos_0. ring.
  - split; [|split].
    + intros q Hq. apply HS in Hq. destruct Hq as (t & _ & ->). cbn [snd].
      pose proof (SIN_bound t). nra.
    + exists (x + rh * cos (3 * (PI / 2)), y + rv * sin (3 * (PI / 2))). split.
      * apply HS. exists (3 * (PI / 2)). split; [lra | reflexivity].
      * cbn [snd]. rewrite sin_3PI2. ring.
    + exists (x + rh * cos (PI / 2), y + rv * sin (PI / 2)). split.
      * apply HS. exists (PI / 2). split; [lra | reflexivity].
      * cbn [snd]. rewrite sin_PI2. ring.
  - intros q Hq. apply HS in Hq. destruct Hq as (t & Ht & ->).
    destruct (cos_sin_opposite t Ht) as (t' & Ht' & Hc & Hs).
    apply HS. exists t'. split; [exact Ht'|].
    cbn [fst snd]. rewrite Hc, Hs. f_equal; ring.
Qed.

End OvalFacts.

Import Canvas2D.

(** C7.  [fillOval] and [strokeOval] issue, in this order: save,
    translate to [(x, y)], scale by the two radii, begin a path, the arc
    of the unit circle, restore, and last the fill (the stroke).  On the
    canvas the transform and the stack of saved transforms are after the
    call what they were before it, and the mark is painted under the
    transform of before the call, its outline being the arc as transformed
    when it was added.  For [fillOval(x,y,10,20)] on an untransformed
    canvas that outline spans [x - 10 .. x + 10] horizontally and
    [y - 20 .. y + 20] vertically, half as wide as high, and is symmetric
    about [(x, y)]. *)
Theorem C7_oval_restore_before_paint :
  forall x y rh rv : R,
    Extras.fillOval x y rh rv
    = [Save; Translate x y; Scale rh rv; BeginPath;
       Arc 0 0 1 0 (2 * PI) false; Restore; Fill]%R
    /\ Extras.strokeOval x y rh rv
       = [Save; Translate x y; Scale rh rv; BeginPath;
          Arc 0 0 1 0 (2 * PI) false; Restore; Stroke]%R
    /\ (forall s : state,
          let outline :=
            [P_arc (scale (translate (ctm s) x y) rh rv) 0 0 1 0 (2 * PI) false]%R in
          let filled := exec_all (Extras.fillOval x y rh rv) s in
          let stroked := exec_all (Extras.strokeOval x y rh rv) s in
          ctm filled = ctm s /\ saved filled = saved s
          /\ painted filled
             = painted s ++ [{| mk_paint := Filled; mk_outline := outline;
                                mk_pen := ctm s |}]
          /\ ctm stroked = ctm s /\ saved stroked = saved s
          /\ painted stroked
             = painted s ++ [{| mk_paint := Stroked; mk_outline := outline;
                                mk_pen := ctm s |}])
    /\ (let S := on_arc (scale (translate identity x y) 10 20) 0 0 1 0 (2 * PI) in
        extent S fst (x - 10) (x + 10)
        /\ extent S snd (y - 20) (y + 20)
        /\ centered_at S (x, y)
        /\ (x + 10) - (x - 10) = ((y + 20) - (y - 20)) / 2)%R.
Proof.
  intros x y rh rv.
  split; [reflexivity|]. split; [reflexivity|]. split.
  - intros s outline filled stroked. unfold filled, stroked.
    rewrite OvalFacts.fill_on_canvas, OvalFacts.stroke_on_canvas.
    repeat split.
  - intros S.
    destruct (OvalFacts.oval_extents x y 10 20) as (Hh & Hv & Hc); try lra.
    split; [exact Hh|]. split; [exact Hv|]. split; [exact Hc|]. lra.
Qed.

(** * Further properties of the program *)

Import Terms.

(** ** Coordinates and colors *)

Module NumberFacts.

Lemma Math_round_bounds (q : Q) :
  (q - (1 # 2) < inject_Z (Math_round q))%Q
  /\ (inject_Z (Math_round q) <= q + (1 # 2))%Q.
Proof.
  unfold Math_round.
  pose proof (Qfloor_le (q + (1 # 2))) as Hle.
  pose proof (Qlt_floor (q + (1 # 2))) as Hlt.
  rewrite inject_Z_plus in Hlt.
  split; [|exact Hle].
  change (inject_Z 1) with 1%Q in Hlt.
  generalize dependent (inject_Z (Qfloor (q + (1 # 2)))). intros F HF1 HF2. Lqa.lra.
Qed.

Lemma Math_round_integer (q : Q) (z : Z) :
  (q == inject_Z z)%Q -> Math_round q = z.
Proof.
  intros E. destruct (Math_round_bounds q) as [Hlo Hhi].
  assert (H1 : (inject_Z z < inject_Z (Math_round q + 1))%Q).
  { rewrite inject_Z_plus. change (inject_Z 1) with 1%Q.
    revert E Hlo. generalize (inject_Z z), (inject_Z (Math_round q)).
    intros a b E Hlo. Lqa.lra. }
  assert (H2 : (inject_Z (Math_round q) < inject_Z (z + 1))%Q).
  { rewrite inject_Z_plus. change (inject_Z 1) with 1%Q.
    revert E Hhi. generalize (inject_Z z), (inject_Z (Math_round q)).
    intros a b E Hhi. Lqa.lra. }
  rewrite <- Zlt_Qlt in H1, H2. lia.
Qed.

Lemma Math_floor_channel (u : Q) :
  (0 <= u)%Q -> (u < 1)%Q -> channel (Math_floor (256 * u)).
Proof.
  intros H0 H1. unfold channel, Math_floor.
  pose proof (Qfloor_le (256 * u)) as Hle.
  assert (Hlt : (inject_Z (Qfloor (256 * u)) < inject_Z 256)%Q).
  { change (inject_Z 256) with 256%Q.
    generalize dependent (inject_Z (Qfloor (256 * u))). intros F HF. Lqa.lra. }
  rewrite <- Zlt_Qlt in Hlt.
  assert (Hge : (Qfloor 0 <= Qfloor (256 * u))%Z)
    by (apply Qfloor_resp_le; Lqa.lra).
  change (Qfloor 0) with 0%Z in Hge. lia.
Qed.

End NumberFacts.

(** X1.  Whole-number coordinates pass through unchanged: when
    [clientX], [clientY] and the corner of the canvas rectangle are
    integers of size at most 2^52, for which the subtraction of doubles
    is exact, the canvas coordinates a handler computes are exactly the
    differences [clientX - left] and [clientY - top]. *)
Theorem X1_integer_coordinates_pass_through :
  forall (evt : MouseEvent) (p : page) (cx cy l t : Z),
    (Z.abs cx <= 2 ^ 52)%Z -> (Z.abs cy <= 2 ^ 52)%Z ->
    (Z.abs l <= 2 ^ 52)%Z -> (Z.abs t <= 2 ^ 52)%Z ->
    (clientX evt == inject_Z cx)%Q -> (clientY evt == inject_Z cy)%Q ->
    (rect_left p == inject_Z l)%Q -> (rect_top p == inject_Z t)%Q ->
    position evt p = ((cx - l)%Z, (cy - t)%Z).
Proof.
  intros evt p cx cy l t _ _ _ _ Hx Hy Hl Ht.
  unfold position.
  rewrite (NumberFacts.Math_round_integer _ (cx - l)%Z),
          (NumberFacts.Math_round_integer _ (cy - t)%Z).
  - reflexivity.
  - rewrite Hy, Ht. unfold Zminus.
    rewrite inject_Z_plus, inject_Z_opp. reflexivity.
  - rewrite Hx, Hl. unfold Zminus.
    rewrite inject_Z_plus, inject_Z_opp. reflexivity.
Qed.

Lemma X1_integer_coordinates_pass_through_witness :
  position
    {| button := 0; clientX := 130; clientY := 80; e_target := Canvas |}
    {| rect_left := 8; rect_top := 10; colorChoice_value := 1;
       shapeType_value := 0; Math_random := fun _ => 0%Q |}
  = (122, 70)%Z.
Proof.
  apply (X1_integer_coordinates_pass_through
           {| button := 0; clientX := 130; clientY := 80; e_target := Canvas |}
           {| rect_left := 8; rect_top := 10; colorChoice_value := 1;
              shapeType_value := 0; Math_random := fun _ => 0%Q |}
           130%Z 80%Z 8%Z 10%Z);
    try reflexivity; cbn; lia.
Defined.

(** X2.  When [Math.random] returns numbers in [0, 1), the string that
    [randomColorString] returns is "rgb(r,g,b)" for three integers between
    0 and 255, each the integer part of 256 times one of the three
    draws. *)
Theorem X2_randomColorString_channels :
  forall random : nat -> Q,
    unit_interval random ->
    let r := Math_floor (256 * random 0%nat) in
    let g := Math_floor (256 * random 1%nat) in
    let b := Math_floor (256 * random 2%nat) in
    randomColorString random = rgb r g b
    /\ channel r /\ channel g /\ channel b.
Proof.
  intros random H r g b.
  split; [reflexivity|].
  repeat split; apply NumberFacts.Math_floor_channel; apply H.
Qed.

Lemma X2_randomColorString_channels_witness :
  randomColorString
    (fun k => match k with O => 1 # 4 | S O => 1 # 2 | _ => 3 # 4 end)%Q
  = "rgb(64,128,192)"%string.
Proof.
  apply (X2_randomColorString_channels
           (fun k => match k with O => 1 # 4 | S O => 1 # 2 | _ => 3 # 4 end)%Q).
  intros [|[|k]]; unfold Qle, Qlt; cbn; lia.
Defined.

(** ** Sessions *)

Module SessionFacts.
Import Handler Session.

Lemma run_app (os os' : list occurrence) (w : world) :
  run (os ++ os') w = run os' (run os w).
Proof. unfold run. apply fold_left_app. Qed.

(** Delivery of one event preserves what the handlers preserve for that
    event. *)
Lemma dispatch_preserves_for (P : world -> Prop) ty evt p :
  (forall f w, P w -> P (invoke f evt p w)) ->
  forall w, P w -> P (dispatch ty evt p w).
Proof.
  intros Hinv. unfold dispatch. generalize (propagation (e_target evt)).
  intro ts. induction ts as [|t ts IH]; intros w Hw; cbn [fold_left]; [exact Hw|].
  apply IH. unfold deliver_at.
  generalize (filter
                (fun l => target_eqb (l_target l) t && evtype_eqb (l_type l) ty)
                (listeners w)).
  intro ls. revert w Hw.
  induction ls as [|l ls IHl]; intros w Hw; cbn [fold_left]; [exact Hw|].
  apply IHl. destruct (registered l (listeners w)); auto.
Qed.

Lemma run_preserves_for (Q : occurrence -> Prop) (P : world -> Prop) :
  (forall o f w, Q o -> P w -> P (invoke f (o_event o) (o_page o) w)) ->
  forall os w, Forall Q os -> P w -> P (run os w).
Proof.
  intros Hinv os. induction os as [|o os IH]; intros w HQ Hw; [exact Hw|].
  inversion HQ as [|o' os' Ho Hos]; subst.
  rewrite DeliveryFacts.run_cons. apply IH; [exact Hos|].
  apply dispatch_preserves_for; [|exact Hw].
  intros f v Hv. apply Hinv; assumption.
Qed.

(** In an idle world a move and a release do nothing. *)
Lemma doMouseMove_idle evt p w :
  dragging (vars w) = false -> doMouseMove evt p w = w.
Proof. intros H. unfold doMouseMove. rewrite H. reflexivity. Qed.

Lemma doMouseUp_idle evt p w :
  dragging (vars w) = false -> doMouseUp evt p w = w.
Proof. intros H. unfold doMouseUp. rewrite H. reflexivity. Qed.

(** What every move of a drag preserves is preserved by all the events of
    the drag up to the release. *)
Lemma drag_preserves (P : world -> Prop) :
  (forall evt p w, P w -> P (doMouseMove evt p w)) ->
  forall os w,
    installed w -> dragging (vars w) = true -> no_release os ->
    P w -> P (run os w).
Proof.
  intros Hmove os. induction os as [|o os IH]; intros w Hi Hd Hno Hw; [exact Hw|].
  inversion Hno as [|o' os' Hty Hrest]; subst.
  rewrite DeliveryFacts.run_cons.
  rewrite (DeliveryFacts.dispatch_installed _ _ _ _ Hi).
  assert (Hi1 : installed (step (o_type o) (o_event o) (o_page o) w))
    by (apply DeliveryFacts.installed_step; exact Hi).
  revert Hi1. unfold step. destruct (o_type o); [| |congruence].
  - destruct (e_target (o_event o)).
    + rewrite DragFacts.doMouseDown_dragging by exact Hd.
      intros _. apply IH; assumption.
    + intros _. apply IH; assumption.
  - intros Hi1. apply IH; [exact Hi1 | | exact Hrest | apply Hmove; exact Hw].
    destruct (DragFacts.doMouseMove_keeps (o_event o) (o_page o) w) as (E & _).
    rewrite E. exact Hd.
Qed.

Lemma doMouseDown_graphics evt p w :
  graphics (doMouseDown evt p w) = graphics w.
Proof.
  unfold doMouseDown.
  destruct (dragging (vars w)); [reflexivity|].
  destruct (negb (button evt =? 0)%Z); reflexivity.
Qed.

Lemma doMouseUp_graphics evt p w :
  graphics (doMouseUp evt p w) = graphics w.
Proof.
  unfold doMouseUp. destruct (negb (dragging (vars w))); reflexivity.
Qed.

End SessionFacts.

(** X3.  In every world the program can reach, a press is ignored, the
    whole world staying as it is, when the button is not the main one,
    when a drag is already in progress, or when the pointer is not over
    the canvas. *)
Theorem X3_ignored_presses :
  forall (os : list occurrence) (width height : Z) (evt : MouseEvent) (p : page),
    let w := run os (init width height) in
    (button evt <> 0%Z \/ dragging (vars w) = true \/ e_target evt = Document) ->
    dispatch mousedown evt p w = w.
Proof.
  intros os width height evt p w H.
  rewrite DeliveryFacts.dispatch_installed
    by apply DeliveryFacts.installed_run.
  unfold step. destruct (e_target evt) eqn:Ht; [|reflexivity].
  unfold doMouseDown. destruct (dragging (vars w)) eqn:Hd; [reflexivity|].
  destruct H as [Hb|[Hd'|Ht']]; [|discriminate|discriminate].
  apply Z.eqb_neq in Hb. rewrite Hb. reflexivity.
Qed.

Lemma X3_ignored_presses_witness :
  dispatch mousedown
    {| button := 2; clientX := 10; clientY := 10; e_target := Canvas |}
    (controls 1 0) (run [] (init 300 200))
  = run [] (init 300 200).
Proof.
  apply (X3_ignored_presses [] 300%Z 200%Z
           {| button := 2; clientX := 10; clientY := 10; e_target := Canvas |}
           (controls 1 0)).
  left. discriminate.
Defined.

(** X4.  While no drag is in progress, moves and releases change nothing:
    from an idle world the program can reach, any sequence of events
    without a press leads back to the very same world, so nothing is drawn
    and no variable changes. *)
Theorem X4_idle_moves_and_releases_do_nothing :
  forall (os : list occurrence) (width height : Z) (noise : list occurrence),
    let w := run os (init width height) in
    dragging (vars w) = false ->
    no_press noise ->
    run noise w = w.
Proof.
  intros os width height noise w Hd Hno.
  pose proof (DeliveryFacts.installed_run os width height) as Hi. fold w in Hi.
  clearbody w.
  induction noise as [|o noise IH]; [reflexivity|].
  inversion Hno as [|o' os' Hty Hrest]; subst.
  rewrite DeliveryFacts.run_cons.
  rewrite (DeliveryFacts.dispatch_installed _ _ _ _ Hi).
  replace (step (o_type o) (o_event o) (o_page o) w) with w; [exact (IH Hrest)|].
  unfold step. destruct (o_type o); [congruence| |].
  - symmetry. apply SessionFacts.doMouseMove_idle. exact Hd.
  - symmetry. apply SessionFacts.doMouseUp_idle. exact Hd.
Qed.

Lemma X4_idle_moves_and_releases_do_nothing_witness :
  let w := run [occ mousedown 50 50 1 0; occ mousemove 60 60 1 0;
                occ mouseup 60 60 1 0] (init 300 200) in
  run [occ mousemove 10 10 2 1; occ mouseup 10 10 2 1;
       occ mousemove 90 90 2 1] w = w.
Proof.
  apply (X4_idle_moves_and_releases_do_nothing
           [occ mousedown 50 50 1 0; occ mousemove 60 60 1 0;
            occ mouseup 60 60 1 0] 300%Z 200%Z).
  - reflexivity.
  - repeat constructor; discriminate.
Defined.

(** X5.  In every world the program can reach, the listener table holds
    no listener twice and at most three listeners, all of them among the
    three the program registers; [doMouseDown] is always registered on the
    canvas, and [doMouseMove] is registered on the document exactly while
    a drag is in progress.  However many drags there have been, the table
    does not grow. *)
Theorem X5_listener_table :
  forall (os : list occurrence) (width height : Z),
    let w := run os (init width height) in
    NoDup (listeners w)
    /\ (List.length (listeners w) <= 3)%nat
    /\ (forall l, In l (listeners w) -> l = L_down \/ l = L_move \/ l = L_up)
    /\ registered L_down (listeners w) = true
    /\ registered L_move (listeners w) = dragging (vars w).
Proof.
  intros os width height w.
  pose proof (DeliveryFacts.installed_run os width height) as Hi. fold w in Hi.
  assert (Hnd : forall ls : list listener,
             ls = [L_down] \/ ls = [L_down; L_up]
             \/ ls = [L_down; L_move; L_up] \/ ls = [L_down; L_up; L_move] ->
             NoDup ls
             /\ (List.length ls <= 3)%nat
             /\ (forall l, In l ls -> l = L_down \/ l = L_move \/ l = L_up)).
  { intros ls Hls.
    destruct Hls as [ -> | [ -> | [ -> | -> ] ] ];
      (split; [repeat constructor; cbn; intuition discriminate|]);
      (split; [cbn; lia|]);
      intros l Hin; cbn in Hin; intuition auto. }
  destruct Hi as [[Hd [HL|HL]]|[Hd [HL|HL]]];
    (destruct (Hnd (listeners w)) as (H1 & H2 & H3); [rewrite HL; auto|]);
    (split; [exact H1|]); (split; [exact H2|]); (split; [exact H3|]);
    rewrite HL, Hd; split; reflexivity.
Qed.

(** X6.  Presses and releases never draw: in every world the program can
    reach, delivering an event that is not a move leaves the graphics
    context, its fill style and its log of calls, as it is. *)
Theorem X6_only_moves_draw :
  forall (os : list occurrence) (width height : Z) (o : occurrence),
    o_type o <> mousemove ->
    graphics (run (os ++ [o]) (init width height))
    = graphics (run os (init width height)).
Proof.
  intros os width height o Hty.
  rewrite SessionFacts.run_app, DeliveryFacts.run_cons. cbn [run fold_left].
  rewrite DeliveryFacts.dispatch_installed
    by apply DeliveryFacts.installed_run.
  unfold step. destruct (o_type o); [| congruence |].
  - destruct (e_target (o_event o)); [|reflexivity].
    apply SessionFacts.doMouseDown_graphics.
  - apply SessionFacts.doMouseUp_graphics.
Qed.

Lemma X6_only_moves_draw_witness :
  graphics (run ([occ mousedown 50 50 1 0; occ mousemove 60 60 1 0]
                   ++ [occ mouseup 60 60 1 0]) (init 300 200))
  = graphics (run [occ mousedown 50 50 1 0; occ mousemove 60 60 1 0]
                (init 300 200)).
Proof.
  apply (X6_only_moves_draw
           [occ mousedown 50 50 1 0; occ mousemove 60 60 1 0] 300%Z 200%Z
           (occ mouseup 60 60 1 0)).
  discriminate.
Defined.

(** X7.  A move that arrives during a drag either leaves the world as it
    is, or the position it records in [prevX], [prevY] is at Manhattan
    distance at least 3 from the one recorded just before.  The test
    looks at that one position only: stamps that do not follow one
    another can coincide, as when the pointer goes from (50,50) to
    (53,50), back, and to (53,50) again, which stamps the square at
    (53,50) twice. *)
Theorem X7_consecutive_positions_3_apart :
  (forall (evt : MouseEvent) (p : page) (w : world) (px py : Z),
      dragging (vars w) = true ->
      prevX (vars w) = Some px ->
      prevY (vars w) = Some py ->
      let x := fst (position evt p) in
      let y := snd (position evt p) in
      let w' := doMouseMove evt p w in
      w' = w
      \/ ((3 <= Z.abs (x - px) + Z.abs (y - py))%Z
          /\ prevX (vars w') = Some x
          /\ prevY (vars w') = Some y))
  /\ (let w0 := init 300 200 in
      let w1 := run [occ mousedown 50 50 1 0; occ mousemove 53 50 1 0;
                     occ mousemove 50 50 1 0; occ mousemove 53 50 1 0] w0 in
      issued w0 w1
        [SetFillStyle "red"; FillRect 33 30 40 40; StrokeRect 33 30 40 40;
         SetFillStyle "red"; FillRect 30 30 40 40; StrokeRect 30 30 40 40;
         SetFillStyle "red"; FillRect 33 30 40 40; StrokeRect 33 30 40 40]%R).
Proof.
  split; [|reflexivity].
  intros evt p w px py Hd Hx Hy x y w'.
  destruct (too_close x y (vars w)) eqn:Hclose.
  - left. unfold w', doMouseMove. rewrite Hd. cbn [negb].
    unfold x, y, position in Hclose. cbn [fst snd] in Hclose.
    rewrite Hclose. reflexivity.
  - right. unfold w'.
    rewrite (HandlerFacts.doMouseMove_qualifying evt p w (conj Hd Hclose)).
    unfold too_close in Hclose. rewrite Hx, Hy in Hclose.
    apply Z.ltb_ge in Hclose.
    split; [exact Hclose | split; reflexivity].
Qed.

Lemma X7_consecutive_positions_3_apart_witness :
  let w := run [occ mousedown 50 50 1 0] (init 300 200) in
  let w' := doMouseMove (pointer 52 51) (controls 1 0) w in
  w' = w
  \/ ((3 <= Z.abs (52 - 50) + Z.abs (51 - 50))%Z
      /\ prevX (vars w') = Some 52%Z
      /\ prevY (vars w') = Some 51%Z).
Proof.
  destruct X7_consecutive_positions_3_apart as [H _].
  apply (H (pointer 52 51) (controls 1 0)
           (run [occ mousedown 50 50 1 0] (init 300 200)) 50%Z 50%Z);
    reflexivity.
Defined.

(** X8.  The arming press records its position both as the start and as
    the previous position; the start position then stays what it is for
    the whole drag, whatever moves and further presses follow, and the
    release keeps it too. *)
Theorem X8_start_position_fixed :
  forall (before : list occurrence) (width height : Z) (down : occurrence)
         (during : list occurrence) (evt : MouseEvent) (p : page),
    let w0 := run before (init width height) in
    dragging (vars w0) = false ->
    arming down ->
    no_release during ->
    let x := fst (position (o_event down) (o_page down)) in
    let y := snd (position (o_event down) (o_page down)) in
    let w1 := run [down] w0 in
    let w2 := run during w1 in
    (startX (vars w1) = Some x /\ startY (vars w1) = Some y
     /\ prevX (vars w1) = Some x /\ prevY (vars w1) = Some y)
    /\ (startX (vars w2) = Some x /\ startY (vars w2) = Some y)
    /\ (startX (vars (doMouseUp evt p w2)) = Some x
        /\ startY (vars (doMouseUp evt p w2)) = Some y).
Proof.
  intros before width height down during evt p w0 Hidle Harm Hno x y w1 w2.
  pose proof (DeliveryFacts.installed_run before width height) as Hi0.
  fold w0 in Hi0.
  destruct (DragFacts.arming_press down w0 Hi0 Hidle Harm)
    as (Hi1 & Hd1 & _). fold w1 in Hi1, Hd1.
  assert (H1 : startX (vars w1) = Some x /\ startY (vars w1) = Some y
               /\ prevX (vars w1) = Some x /\ prevY (vars w1) = Some y).
  { unfold w1. rewrite DeliveryFacts.run_cons. cbn [run fold_left].
    rewrite (DeliveryFacts.dispatch_installed _ _ _ _ Hi0).
    destruct Harm as (Hty & Htarget & Hbutton).
    unfold step. rewrite Hty, Htarget. unfold doMouseDown.
    rewrite Hidle, Hbutton. cbn. repeat split. }
  assert (H2 : startX (vars w2) = Some x /\ startY (vars w2) = Some y).
  { unfold w2.
    apply (SessionFacts.drag_preserves
             (fun w => startX (vars w) = Some x /\ startY (vars w) = Some y));
      try assumption; [|tauto].
    intros e q w Hw. unfold doMouseMove.
    destruct (negb (dragging (vars w))); [exact Hw|].
    destruct (too_close _ _ _); exact Hw. }
  split; [exact H1|]. split; [exact H2|].
  unfold doMouseUp. destruct (negb (dragging (vars w2))); exact H2.
Qed.

Lemma X8_start_position_fixed_witness :
  let w2 := run [occ mousemove 60 60 1 0; occ mousemove 80 90 1 0]
              (run [occ mousedown 50 40 1 0] (run [] (init 300 200))) in
  startX (vars w2) = Some 50%Z /\ startY (vars w2) = Some 40%Z.
Proof.
  apply (X8_start_position_fixed [] 300%Z 200%Z (occ mousedown 50 40 1 0)
           [occ mousemove 60 60 1 0; occ mousemove 80 90 1 0]
           (pointer 0 0) (controls 1 0)).
  - reflexivity.
  - repeat split.
  - repeat constructor; discriminate.
Defined.

(** ** The log of calls *)

Module LogFacts.
Import Handler Session Canvas2D.

Lemma plain_draw_shape x y sh : plain (draw_shape x y sh).
Proof.
  unfold plain.
  destruct sh as [[|[q|q|]|q]|]; cbn [draw_shape]; try (apply Forall_nil).
  - unfold square. repeat constructor.
  - unfold star. apply Forall_app. split; [repeat constructor|].
    apply Forall_app. split; [|repeat constructor].
    apply Forall_forall. intros c Hin.
    apply in_map_iff in Hin. destruct Hin as (k & <- & _). reflexivity.
Qed.

Lemma plain_select_color p c g :
  plain (calls g) -> plain (calls (select_color p c g)).
Proof.
  intros Hg.
  destruct (HandlerFacts.select_color_calls p c g) as [E|[s E]]; rewrite E;
    [exact Hg|].
  cbn [set_fillStyle calls]. apply Forall_app. split; [exact Hg|].
  repeat constructor.
Qed.

Lemma plain_invoke f evt p w :
  plain (calls (graphics w)) -> plain (calls (graphics (invoke f evt p w))).
Proof.
  intros Hw. destruct f; cbn [invoke].
  - rewrite SessionFacts.doMouseDown_graphics. exact Hw.
  - unfold doMouseMove.
    destruct (negb (dragging (vars w))); [exact Hw|].
    destruct (too_close _ _ _); [exact Hw|].
    cbn [on_vars on_graphics graphics vars calls issue].
    apply Forall_app. split; [|apply plain_draw_shape].
    apply plain_select_color. exact Hw.
  - rewrite SessionFacts.doMouseUp_graphics. exact Hw.
Qed.

(** Calls that are not transform calls leave the transform and the stack
    of saved transforms alone. *)
Lemma exec_all_plain cs :
  plain cs ->
  forall s, ctm (exec_all cs s) = ctm s /\ saved (exec_all cs s) = saved s.
Proof.
  unfold exec_all. induction 1 as [|c cs Hc _ IH]; intros s; [auto|].
  cbn [fold_left]. destruct (IH (exec s c)) as [E1 E2].
  rewrite E1, E2. destruct c; try discriminate; auto.
Qed.

Lemma style_select_color p c g :
  unit_interval (Math_random p) ->
  program_style (fillStyle g) ->
  program_style (fillStyle (select_color p c g)).
Proof.
  intros Hrnd Hg.
  assert (Hnamed : forall s,
             In s ["white"; "red"; "green"; "blue"; "yellow"]%string ->
             program_style (fillStyle (set_fillStyle s g)))
    by (intros s Hs; left; exact Hs).
  destruct c as [[|[q|q|]|q]|]; cbn [select_color]; try exact Hg.
  - right. cbn [set_fillStyle fillStyle].
    exists (Math_floor (256 * Math_random p 0%nat)),
           (Math_floor (256 * Math_random p 1%nat)),
           (Math_floor (256 * Math_random p 2%nat)).
    repeat split;
      try (apply NumberFacts.Math_floor_channel; apply Hrnd).
  - destruct q as [[q|q|]|[q|q|]|]; cbn [select_color]; try exact Hg.
    apply Hnamed. cbn. tauto.
  - destruct q as [[q|q|]|[q|q|]|]; cbn [select_color]; try exact Hg.
    + apply Hnamed. cbn. tauto.
    + apply Hnamed. cbn. tauto.
  - apply Hnamed. cbn. tauto.
Qed.

Lemma style_invoke f evt p w :
  unit_interval (Math_random p) ->
  program_style (fillStyle (graphics w)) ->
  program_style (fillStyle (graphics (invoke f evt p w))).
Proof.
  intros Hrnd Hw. destruct f; cbn [invoke].
  - rewrite SessionFacts.doMouseDown_graphics. exact Hw.
  - unfold doMouseMove.
    destruct (negb (dragging (vars w))); [exact Hw|].
    destruct (too_close _ _ _); [exact Hw|].
    cbn [on_vars on_graphics graphics vars fillStyle issue].
    apply style_select_color; assumption.
  - rewrite SessionFacts.doMouseUp_graphics. exact Hw.
Qed.

End LogFacts.

(** X9.  The program never calls [save], [restore], [translate] or
    [scale] on the graphics context: in every world it can reach the log
    holds none of them, so the canvas that receives the log keeps the
    transform and the stack of saved transforms it had. *)
Theorem X9_transform_never_touched :
  forall (os : list occurrence) (width height : Z),
    let w := run os (init width height) in
    forallb (fun c => negb (is_transform c)) (calls (graphics w)) = true
    /\ (forall s : state,
          ctm (exec_all (calls (graphics w)) s) = ctm s
          /\ saved (exec_all (calls (graphics w)) s) = saved s)
    /\ ctm (exec_all (calls (graphics w)) blank) = identity.
Proof.
  intros os width height w.
  assert (Hplain : plain (calls (graphics w))).
  { unfold w.
    apply (DeliveryFacts.run_preserves
             (fun w => plain (calls (graphics w)))).
    - intros f evt p v. apply LogFacts.plain_invoke.
    - cbn. repeat constructor. }
  split; [|split].
  - apply forallb_forall. intros c Hin.
    unfold plain in Hplain. rewrite Forall_forall in Hplain.
    rewrite (Hplain c Hin). reflexivity.
  - apply LogFacts.exec_all_plain. exact Hplain.
  - apply (LogFacts.exec_all_plain _ Hplain blank).
Qed.

(** X10.  When [Math.random] returns numbers in [0, 1), the fill style of
    the graphics context is, in every world the program can reach, one of
    "white", "red", "green", "blue", "yellow", or "rgb(r,g,b)" with three
    integers between 0 and 255. *)
Theorem X10_fill_style_always_a_color :
  forall (os : list occurrence) (width height : Z),
    fair os ->
    program_style (fillStyle (graphics (run os (init width height)))).
Proof.
  intros os width height Hfair.
  apply (SessionFacts.run_preserves_for
           (fun o => unit_interval (Math_random (o_page o)))
           (fun w => program_style (fillStyle (graphics w)))).
  - intros o f w Ho Hw. apply LogFacts.style_invoke; assumption.
  - exact Hfair.
  - left. cbn. tauto.
Qed.

Lemma X10_fill_style_always_a_color_witness :
  program_style
    (fillStyle (graphics (run [occ mousedown 50 50 0 0; occ mousemove 60 60 0 0]
                            (init 300 200)))).
Proof.
  apply (X10_fill_style_always_a_color
           [occ mousedown 50 50 0 0; occ mousemove 60 60 0 0] 300%Z 200%Z).
  repeat constructor; try (unfold Qle; cbn; lia); reflexivity.
Defined.

(** ** The shapes on the canvas *)

Module ShapeFacts.
Import Handler Session Canvas2D.
Local Open Scope R_scope.

(** The calls of the star, with the vertices in polar form. *)
Lemma star_polar (x y : Z) :
  star x y
  = BeginPath :: moveTo_point (polar x y 50 0)
      :: map (fun k => lineTo_point (polar x y 50 (INR k * 2 * PI / 13)))
           (seq 0 14)
      ++ [Fill; Stroke].
Proof.
  unfold star.
  rewrite (map_ext
             (fun i => LineTo (fst (star_vertex x y i)) (snd (star_vertex x y i)))
             (fun k => lineTo_point (polar x y 50 (INR k * 2 * PI / 13))))
    by (intro k; rewrite HandlerFacts.star_vertex_polar; reflexivity).
  reflexivity.
Qed.

Lemma circle_as_oval (m : matrix) (x y r t : R) :
  apply (scale (translate m x y) r r) (0 + 1 * cos t, 0 + 1 * sin t)
  = apply m (x + r * cos t, y + r * sin t).
Proof.
  unfold apply, scale, translate. cbn. f_equal; ring.
Qed.

End ShapeFacts.

(** X13.  On the canvas each stamp leaves two marks with one and the same
    outline, the first filled and the second stroked, painted under the
    transform in force.  For the square the outline is the rectangle; the
    current path is not touched, and on an untransformed canvas the
    corners are at 20 to either side of the position of the event.  For
    the star the outline is the path of its 15 vertices, which becomes the
    current path. *)
Theorem X13_stamp_marks :
  forall (x y : Z) (s : state),
    (let o := rect_outline (ctm s) (IZR (x - 20)) (IZR (y - 20)) 40 40 in
     let s' := exec_all (draw_shape x y (Some 0%Z)) s in
     painted s' = painted s
                    ++ [{| mk_paint := Filled; mk_outline := o; mk_pen := ctm s |};
                        {| mk_paint := Stroked; mk_outline := o; mk_pen := ctm s |}]
     /\ path s' = path s)
    /\ rect_outline identity (IZR (x - 20)) (IZR (y - 20)) 40 40
       = [P_move (IZR x - 20, IZR y - 20); P_line (IZR x + 20, IZR y - 20);
          P_line (IZR x + 20, IZR y + 20); P_line (IZR x - 20, IZR y + 20);
          P_close]%R
    /\ (let o := star_outline (ctm s) x y in
        let s' := exec_all (draw_shape x y (Some 1%Z)) s in
        painted s' = painted s
                       ++ [{| mk_paint := Filled; mk_outline := o; mk_pen := ctm s |};
                           {| mk_paint := Stroked; mk_outline := o; mk_pen := ctm s |}]
        /\ path s' = o
        /\ List.length o = 15%nat).
Proof.
  intros x y s. split; [|split].
  - cbn [draw_shape]. unfold square, exec_all. cbn [fold_left exec painted path].
    rewrite <- app_assoc. split; reflexivity.
  - unfold rect_outline, apply, identity. cbn [fst snd m_a m_b m_c m_d m_e m_f].
    rewrite !minus_IZR.
    repeat (f_equal; try (f_equal; ring)).
  - cbn [draw_shape]. rewrite ShapeFacts.star_polar.
    unfold exec_all, star_outline.
    cbn [seq map app fold_left exec painted path ctm saved
           moveTo_point lineTo_point fst snd polar].
    rewrite <- app_assoc. repeat split.
Qed.

(** ** Polygons with any list of arguments *)

Module PolyAnyFacts.
Import Extras Vertices.

(** Every list of arguments is a run of complete pairs followed by at
    most one more argument. *)
Lemma pairs_decompose (A : Type) (l : list A) :
  exists (vs : list (A * A)) (tail : list A),
    l = coords vs ++ tail
    /\ (List.length tail <= 1)%nat
    /\ List.length vs = (List.length l / 2)%nat.
Proof.
  assert (H : forall n (l : list A), (List.length l <= n)%nat ->
              exists (vs : list (A * A)) (tail : list A),
                l = coords vs ++ tail
                /\ (List.length tail <= 1)%nat
                /\ (List.length l = 2 * List.length vs + List.length tail)%nat).
  { induction n as [|n IH]; intros k Hk.
    - destruct k; [|cbn in Hk; lia]. exists [], []. cbn. auto.
    - destruct k as [|a [|b k]].
      + exists [], []. cbn. auto.
      + exists [], [a]. cbn. auto.
      + destruct (IH k) as (vs & tail & E & Ht & Hlen); [cbn in Hk; lia|].
        exists ((a, b) :: vs), tail. rewrite E at 1.
        split; [reflexivity|]. split; [exact Ht|]. cbn [List.length]. lia. }
  destruct (H (List.length l) l (le_n _)) as (vs & tail & E & Ht & Hlen).
  exists vs, tail. split; [exact E|]. split; [exact Ht|].
  rewrite Hlen. apply (Nat.div_unique _ 2 _ (List.length tail)); lia.
Qed.

Lemma lineTo_vertices_defined (A : Type) (vs : list (A * A)) :
  forallb defined_args (map lineTo_vertex vs) = true
  /\ filter is_lineTo (map lineTo_vertex vs) = map lineTo_vertex vs.
Proof.
  induction vs as [|v vs [IH1 IH2]]; [split; reflexivity|].
  cbn. rewrite IH1, IH2. split; reflexivity.
Qed.

End PolyAnyFacts.

Import Extras Vertices.

(** X14.  Whatever the arguments, [fillPoly] and [strokePoly] never pass
    [undefined] to [moveTo] or [lineTo].  When they draw (6 arguments or
    more for [fillPoly], 4 or more for [strokePoly]), n arguments give
    n/2 - 1 [lineTo], the integer part being taken, in a sequence of
    n/2 + 3 calls.  The loop stops by its own condition: running it for
    more rounds than there are arguments adds nothing. *)
Theorem X14_poly_any_arguments :
  forall (A : Type) (args : list A),
    forallb defined_args (fillPoly args) = true
    /\ forallb defined_args (strokePoly args) = true
    /\ ((6 <= List.length args)%nat ->
        List.length (filter is_lineTo (fillPoly args))
        = (List.length args / 2 - 1)%nat
        /\ List.length (fillPoly args) = (List.length args / 2 + 3)%nat)
    /\ ((4 <= List.length args)%nat ->
        List.length (filter is_lineTo (strokePoly args))
        = (List.length args / 2 - 1)%nat
        /\ List.length (strokePoly args) = (List.length args / 2 + 3)%nat)
    /\ (forall fuel : nat,
          (List.length args <= fuel)%nat ->
          lineTo_loop fuel args 2 = lineTo_loop (List.length args) args 2).
Proof.
  intros A args.
  destruct args as [|x0 [|y0 rest]].
  { split; [reflexivity|]. split; [reflexivity|].
    split; [cbn [List.length]; intros; lia|].
    split; [cbn [List.length]; intros; lia|].
    intros [|fuel] _; reflexivity. }
  { split; [reflexivity|]. split; [reflexivity|].
    split; [cbn [List.length]; intros; lia|].
    split; [cbn [List.length]; intros; lia|].
    intros [|fuel] _; reflexivity. }
  destruct (PolyAnyFacts.pairs_decompose A rest)
    as (vs & tail & -> & Htail & Hlen).
  assert (Hn : (List.length (x0 :: y0 :: coords vs ++ tail) / 2
                = List.length vs + 1)%nat).
  { change (x0 :: y0 :: coords vs ++ tail)
      with (coords ((x0, y0) :: vs) ++ tail).
    rewrite length_app, PolyFacts.coords_length. cbn [List.length].
    symmetry. apply (Nat.div_unique _ 2 _ (List.length tail)); lia. }
  assert (Hargs : List.length (x0 :: y0 :: coords vs ++ tail)
                  = (2 + 2 * List.length vs + List.length tail)%nat).
  { cbn [List.length]. rewrite length_app, PolyFacts.coords_length. lia. }
  destruct (PolyAnyFacts.lineTo_vertices_defined A vs) as [Hdef Hfilter].
  assert (Hfill : (2 <= List.length vs)%nat ->
                  fillPoly (x0 :: y0 :: coords vs ++ tail)
                  = [BeginPath; MoveTo (Some x0) (Some y0)]
                      ++ map lineTo_vertex vs ++ [ClosePath; Fill])
    by (intro; apply PolyFacts.fillPoly_pairs; assumption).
  assert (Hstroke : (1 <= List.length vs)%nat ->
                    strokePoly (x0 :: y0 :: coords vs ++ tail)
                    = [BeginPath; MoveTo (Some x0) (Some y0)]
                        ++ map lineTo_vertex vs ++ [ClosePath; Stroke])
    by (intro; apply PolyFacts.strokePoly_pairs; assumption).
  split; [|split; [|split; [|split]]].
  - destruct (Nat.le_gt_cases 2 (List.length vs)) as [H|H].
    + rewrite (Hfill H). cbn [app forallb defined_args andb].
      rewrite forallb_app, Hdef. reflexivity.
    + unfold fillPoly.
      replace (List.length (x0 :: y0 :: coords vs ++ tail) <? 6)%nat with true
        by (symmetry; apply Nat.ltb_lt; lia).
      reflexivity.
  - destruct (Nat.le_gt_cases 1 (List.length vs)) as [H|H].
    + rewrite (Hstroke H). cbn [app forallb defined_args andb].
      rewrite forallb_app, Hdef. reflexivity.
    + unfold strokePoly.
      replace (List.length (x0 :: y0 :: coords vs ++ tail) <? 4)%nat with true
        by (symmetry; apply Nat.ltb_lt; lia).
      reflexivity.
  - intros H6. rewrite Hn. rewrite Hfill by lia.
    cbn [app filter is_lineTo List.length].
    rewrite filter_app, Hfilter, !length_app, length_map. cbn. lia.
  - intros H4. rewrite Hn. rewrite Hstroke by lia.
    cbn [app filter is_lineTo List.length].
    rewrite filter_app, Hfilter, !length_app, length_map. cbn. lia.
  - intros fuel Hfuel. rewrite Hargs in Hfuel.
    transitivity (map (@lineTo_vertex A) vs).
    + apply (PolyFacts.lineTo_loop_pairs A vs fuel [x0; y0] tail);
        [lia | assumption].
    + symmetry.
      apply (PolyFacts.lineTo_loop_pairs A vs _ [x0; y0] tail);
        [rewrite Hargs; lia | assumption].
Qed.

Lemma X14_poly_any_arguments_witness :
  (List.length (filter is_lineTo (fillPoly [0; 0; 8; 0; 8; 6; 0; 6; 4]%Z)) = 3%nat
   /\ List.length (fillPoly [0; 0; 8; 0; 8; 6; 0; 6; 4]%Z) = 7%nat)
  /\ (List.length (filter is_lineTo (strokePoly [0; 0; 8; 0; 8; 6; 0; 6; 4]%Z))
      = 3%nat
      /\ List.length (strokePoly [0; 0; 8; 0; 8; 6; 0; 6; 4]%Z) = 7%nat)
  /\ lineTo_loop 40 [0; 0; 8; 0; 8; 6; 0; 6; 4]%Z 2
     = lineTo_loop 9 [0; 0; 8; 0; 8; 6; 0; 6; 4]%Z 2.
Proof.
  destruct (X14_poly_any_arguments Z [0; 0; 8; 0; 8; 6; 0; 6; 4]%Z)
    as (_ & _ & Hfill & Hstroke & Hfuel).
  split; [apply Hfill; cbn; lia|].
  split; [apply Hstroke; cbn; lia|].
  apply (Hfuel 40%nat). cbn. lia.
Defined.

(** X15.  With two vertices (4 arguments, or 5 of which the last is
    ignored) the two polygon functions part ways: [fillPoly] draws
    nothing, and [strokePoly] strokes the closed path from the first
    vertex to the second and back. *)
Theorem X15_two_vertices :
  forall (A : Type) (x0 y0 x1 y1 : A) (tail : list A),
    (List.length tail <= 1)%nat ->
    fillPoly (x0 :: y0 :: x1 :: y1 :: tail) = []
    /\ strokePoly (x0 :: y0 :: x1 :: y1 :: tail)
       = [BeginPath; MoveTo (Some x0) (Some y0); LineTo (Some x1) (Some y1);
          ClosePath; Stroke].
Proof.
  intros A x0 y0 x1 y1 tail Ht.
  destruct tail as [|z [|z' tail]]; [split; reflexivity | split; reflexivity|].
  cbn in Ht. lia.
Qed.

Lemma X15_two_vertices_witness :
  fillPoly [0; 0; 10; 0]%Z = []
  /\ strokePoly [0; 0; 10; 0]%Z
     = [BeginPath; MoveTo (Some 0%Z) (Some 0%Z); LineTo (Some 10%Z) (Some 0%Z);
        ClosePath; Stroke].
Proof.
  apply (X15_two_vertices Z 0%Z 0%Z 10%Z 0%Z []).
  cbn. lia.
Defined.

(** ** Circles and ovals on the canvas *)

(** X16.  For a radius that is not negative, [fillCircle] and
    [strokeCircle] paint one mark each, filled or stroked, whose outline
    is the full arc of radius [r] around [(x, y)] under the transform in
    force, and they leave the transform and its stack alone.  On an
    untransformed canvas every point of that outline is at distance [r]
    from [(x, y)].  An oval with two equal radii has the same outline as
    the circle of that radius, under any transform.  (A negative radius
    is outside this statement: the canvas refuses such an arc.) *)
Theorem X16_circles :
  forall (x y r : R) (s : state),
    (0 <= r)%R ->
    (let filled := exec_all (Extras.fillCircle x y r) s in
     let stroked := exec_all (Extras.strokeCircle x y r) s in
     let outline := [P_arc (ctm s) x y r 0 (2 * PI) false]%R in
     painted filled
     = painted s ++ [{| mk_paint := Filled; mk_outline := outline;
                        mk_pen := ctm s |}]
     /\ painted stroked
        = painted s ++ [{| mk_paint := Stroked; mk_outline := outline;
                           mk_pen := ctm s |}]
     /\ ctm filled = ctm s /\ saved filled = saved s
     /\ ctm stroked = ctm s /\ saved stroked = saved s)
    /\ (forall q : R * R,
          on_arc identity x y r 0 (2 * PI) q ->
          ((fst q - x) * (fst q - x) + (snd q - y) * (snd q - y) = r * r)%R)
    /\ (forall (m : matrix) (q : R * R),
          on_arc (scale (translate m x y) r r) 0 0 1 0 (2 * PI) q
          <-> on_arc m x y r 0 (2 * PI) q).
Proof.
  intros x y r s _. split; [|split].
  - repeat split.
  - intros q (t & _ & ->). unfold apply, identity. cbn.
    pose proof (sin2_cos2 t) as H. unfold Rsqr in H.
    nra.
  - intros m q. unfold on_arc.
    split; intros (t & Ht & ->); exists t; (split; [exact Ht|]).
    + apply ShapeFacts.circle_as_oval.
    + symmetry. apply ShapeFacts.circle_as_oval.
Qed.

Lemma X16_circles_witness :
  painted (exec_all (Extras.fillCircle 10 20 5) blank)
  = [{| mk_paint := Filled;
        mk_outline := [P_arc identity 10 20 5 0 (2 * PI) false];
        mk_pen := identity |}]%R.
Proof.
  apply (X16_circles 10 20 5 blank)%R. lra.
Defined.

(** X17.  For radii that are not negative, the outline that [fillOval]
    and [strokeOval] add on an untransformed canvas spans exactly
    [x - rh .. x + rh] horizontally and [y - rv .. y + rv] vertically,
    both ends being reached, and is symmetric about [(x, y)]. *)
Theorem X17_oval_extents :
  forall x y rh rv : R,
    (0 <= rh)%R -> (0 <= rv)%R ->
    let S := on_arc (scale (translate identity x y) rh rv) 0 0 1 0 (2 * PI) in
    path (exec_all (Extras.fillOval x y rh rv) blank)
    = [P_arc (scale (translate identity x y) rh rv) 0 0 1 0 (2 * PI) false]%R
    /\ path (exec_all (Extras.strokeOval x y rh rv) blank)
       = [P_arc (scale (translate identity x y) rh rv) 0 0 1 0 (2 * PI) false]%R
    /\ extent S fst (x - rh) (x + rh)
    /\ extent S snd (y - rv) (y + rv)
    /\ centered_at S (x, y).
Proof.
  intros x y rh rv Hrh Hrv S.
  split; [reflexivity|]. split; [reflexivity|].
  apply OvalFacts.oval_extents; assumption.
Qed.

Lemma X17_oval_extents_witness :
  let S := on_arc (scale (translate identity 0 0) 3 7) 0 0 1 0 (2 * PI) in
  (extent S fst (0 - 3) (0 + 3)
   /\ extent S snd (0 - 7) (0 + 7)
   /\ centered_at S (0, 0))%R.
Proof.
  apply (X17_oval_extents 0 0 3 7)%R; lra.
Defined.
